(** * Minimal Notes: a model of [notes_frontend/src/App.js]

    The React component [App] keeps four pieces of state ([notes],
    [search], [selectedNoteId], [isCreatingNew]), derives [filteredNotes]
    and [selectedNote] from them on every render, and mirrors [notes] into
    [window.localStorage] under the key ["notes"].  The sub-component
    [NoteEditor] stages a title and a content and hands the trimmed pair to
    [handleSaveNote].

    JavaScript strings are sequences of UTF-16 code units; a code unit is
    modelled as an [N].  Host facilities whose result is not determined by
    the program ([Date.now], [Math.random], [new Date().toISOString()],
    the answer to [window.confirm]) are inputs of the event that reads
    them.  [String.prototype.toLowerCase] depends on the Unicode case
    tables and is a parameter of the definitions that use it. *)

From Stdlib Require Import DecimalN DecimalZ.
From stdpp Require Import gmap list strings.

Set Warnings "-register-all".

Open Scope N_scope.

(** ** JavaScript strings *)

Module JSString.

Abbreviation jsstring := (list N).

(** An ASCII literal as a list of code units. *)
Definition js (s : string) : jsstring :=
  Ascii.N_of_ascii <$> String.list_ascii_of_string s.

(** ECMAScript [WhiteSpace] and [LineTerminator] code points, the set
    stripped by [String.prototype.trim]. *)
Definition isWhiteSpace (c : N) : bool :=
  (c =? 0x09) || (c =? 0x0A) || (c =? 0x0B) || (c =? 0x0C) || (c =? 0x0D)
  || (c =? 0x20) || (c =? 0xA0) || (c =? 0x1680)
  || ((0x2000 <=? c) && (c <=? 0x200A))
  || (c =? 0x2028) || (c =? 0x2029) || (c =? 0x202F) || (c =? 0x205F)
  || (c =? 0x3000) || (c =? 0xFEFF).

Fixpoint trimStart (s : jsstring) : jsstring :=
  match s with
  | c :: r => if isWhiteSpace c then trimStart r else s
  | [] => []
  end.

Definition trimEnd (s : jsstring) : jsstring :=
  reverse (trimStart (reverse s)).

(** [s.trim()] *)
Definition trim (s : jsstring) : jsstring := trimEnd (trimStart s).

Fixpoint startsWith (s p : jsstring) {struct p} : bool :=
  match p, s with
  | [], _ => true
  | _ :: _, [] => false
  | a :: p', b :: s' => (a =? b) && startsWith s' p'
  end.

(** [s.includes(sub)]: does [sub] occur in [s] at some position? *)
Fixpoint includes (s sub : jsstring) : bool :=
  startsWith s sub ||
  match s with
  | [] => false
  | _ :: r => includes r sub
  end.

(** [s.substr(start, len)] for non-negative arguments. *)
Definition substr (s : jsstring) (start len : nat) : jsstring :=
  take len (drop start s).

Definition digit_unit (d : N) : N := 0x30 + d.

Fixpoint uint_units (u : Decimal.uint) : jsstring :=
  match u with
  | Decimal.Nil => []
  | Decimal.D0 r => digit_unit 0 :: uint_units r
  | Decimal.D1 r => digit_unit 1 :: uint_units r
  | Decimal.D2 r => digit_unit 2 :: uint_units r
  | Decimal.D3 r => digit_unit 3 :: uint_units r
  | Decimal.D4 r => digit_unit 4 :: uint_units r
  | Decimal.D5 r => digit_unit 5 :: uint_units r
  | Decimal.D6 r => digit_unit 6 :: uint_units r
  | Decimal.D7 r => digit_unit 7 :: uint_units r
  | Decimal.D8 r => digit_unit 8 :: uint_units r
  | Decimal.D9 r => digit_unit 9 :: uint_units r
  end.

(** [n.toString()] for an integral Number below 1e21 in magnitude (the
    range of time values): the decimal digits, with a leading minus
    sign for a negative one. *)
Definition Number_toString (z : Z) : jsstring :=
  match Z.to_int z with
  | Decimal.Pos u => uint_units u
  | Decimal.Neg u => 0x2D :: uint_units u
  end.

End JSString.

Import JSString.

(** ** JSON text: [JSON.stringify]'s string quoting and [JSON.parse] *)

Module JSON.

(** The values [JSON.parse] builds.  A number keeps its literal: no
    part of the program inspects a numeric value.  An object keeps its
    members as the text lists them; the objects this program writes have
    distinct, non-numeric keys, for which that is the property order. *)
Inductive json : Type :=
| JNull
| JBool (b : bool)
| JNumber (literal : jsstring)
| JString (s : jsstring)
| JArray (elements : list json)
| JObject (members : list (jsstring * json)).

Definition isLeadingSurrogate (c : N) : bool := (0xD800 <=? c) && (c <=? 0xDBFF).
Definition isTrailingSurrogate (c : N) : bool := (0xDC00 <=? c) && (c <=? 0xDFFF).

Definition hexDigit (n : N) : N := if n <? 10 then 0x30 + n else 0x57 + n.

(** [UnicodeEscape(C)]: backslash, [u], four lowercase hex digits. *)
Definition UnicodeEscape (c : N) : jsstring :=
  [0x5C; 0x75; hexDigit (c / 4096 mod 16); hexDigit (c / 256 mod 16);
   hexDigit (c / 16 mod 16); hexDigit (c mod 16)].

(** One code point that is not a well-formed surrogate pair, as
    [QuoteJSONString] writes it. *)
Definition quoteCodePoint (c : N) : jsstring :=
  if c =? 0x08 then [0x5C; 0x62]
  else if c =? 0x09 then [0x5C; 0x74]
  else if c =? 0x0A then [0x5C; 0x6E]
  else if c =? 0x0C then [0x5C; 0x66]
  else if c =? 0x0D then [0x5C; 0x72]
  else if c =? 0x22 then [0x5C; 0x22]
  else if c =? 0x5C then [0x5C; 0x5C]
  else if (c <? 0x20) || isLeadingSurrogate c || isTrailingSurrogate c
       then UnicodeEscape c
  else [c].

Fixpoint quoteUnits (s : jsstring) : jsstring :=
  match s with
  | [] => []
  | c :: r =>
    match r with
    | d :: r' =>
      if isLeadingSurrogate c && isTrailingSurrogate d
      then c :: d :: quoteUnits r'
      else quoteCodePoint c ++ quoteUnits r
    | [] => quoteCodePoint c
    end
  end.

(** [QuoteJSONString(s)] *)
Definition QuoteJSONString (s : jsstring) : jsstring :=
  0x22 :: quoteUnits s ++ [0x22].

(** [parts.join(sep)] *)
Fixpoint join (sep : jsstring) (parts : list jsstring) : jsstring :=
  match parts with
  | [] => []
  | [p] => p
  | p :: rest => p ++ sep ++ join sep rest
  end.

(** [SerializeJSONArray] without a gap, over elements already serialised. *)
Definition SerializeJSONArray (elements : list jsstring) : jsstring :=
  [0x5B] ++ join [0x2C] elements ++ [0x5D].

(** One property of an object: the quoted key, a colon, the serialised
    value. *)
Definition member_line (m : jsstring * jsstring) : jsstring :=
  QuoteJSONString m.1 ++ [0x3A] ++ m.2.

(** [SerializeJSONObject] without a gap, over the own enumerable
    properties with a defined value, each value already serialised. *)
Definition SerializeJSONObject (members : list (jsstring * jsstring)) : jsstring :=
  [0x7B] ++ join [0x2C] (member_line <$> members) ++ [0x7D].

(** A string-valued property as [SerializeJSONProperty] writes its value,
    and as the parser builds it. *)
Definition member_text (kv : jsstring * jsstring) : jsstring * jsstring :=
  (kv.1, QuoteJSONString kv.2).

Definition member_value (kv : jsstring * jsstring) : jsstring * json :=
  (kv.1, JString kv.2).

(** *** Parsing *)

Definition isJSONWhiteSpace (c : N) : bool :=
  (c =? 0x09) || (c =? 0x0A) || (c =? 0x0D) || (c =? 0x20).

Fixpoint skipWhiteSpace (s : jsstring) : jsstring :=
  match s with
  | c :: r => if isJSONWhiteSpace c then skipWhiteSpace r else s
  | [] => []
  end.

Definition isDigit (c : N) : bool := (0x30 <=? c) && (c <=? 0x39).

Definition hexValue (c : N) : option N :=
  if isDigit c then Some (c - 0x30)
  else if (0x61 <=? c) && (c <=? 0x66) then Some (c - 0x57)
  else if (0x41 <=? c) && (c <=? 0x46) then Some (c - 0x37)
  else None.

Definition hex4 (h1 h2 h3 h4 : N) : option N :=
  match hexValue h1, hexValue h2, hexValue h3, hexValue h4 with
  | Some a, Some b, Some c, Some d => Some (((a * 16 + b) * 16 + c) * 16 + d)
  | _, _, _, _ => None
  end.

(** The character a single-character escape stands for. *)
Definition escapeChar (e : N) : option N :=
  if e =? 0x22 then Some 0x22
  else if e =? 0x2F then Some 0x2F
  else if e =? 0x5C then Some 0x5C
  else if e =? 0x62 then Some 0x08
  else if e =? 0x66 then Some 0x0C
  else if e =? 0x6E then Some 0x0A
  else if e =? 0x72 then Some 0x0D
  else if e =? 0x74 then Some 0x09
  else None.

Definition consFst {A B : Type} (a : A) (r : option (list A * B)) : option (list A * B) :=
  match r with
  | Some (l, b) => Some (a :: l, b)
  | None => None
  end.

(** The characters of a JSON string after its opening quote, up to and
    including the closing quote. *)
Fixpoint JSONStringCharacters (s : jsstring) : option (jsstring * jsstring) :=
  match s with
  | [] => None
  | c :: r =>
    if c =? 0x22 then Some ([], r)
    else if c =? 0x5C then
      match r with
      | [] => None
      | e :: r1 =>
        if e =? 0x75 then
          match r1 with
          | h1 :: h2 :: h3 :: h4 :: r2 =>
            match hex4 h1 h2 h3 h4 with
            | Some u => consFst u (JSONStringCharacters r2)
            | None => None
            end
          | _ => None
          end
        else
          match escapeChar e with
          | Some u => consFst u (JSONStringCharacters r1)
          | None => None
          end
      end
    else if c <? 0x20 then None
    else consFst c (JSONStringCharacters r)
  end.

Fixpoint digits (s : jsstring) : jsstring * jsstring :=
  match s with
  | c :: r => if isDigit c then let '(ds, rest) := digits r in (c :: ds, rest)
              else ([], s)
  | [] => ([], [])
  end.

(** One or more digits. *)
Definition digits1 (s : jsstring) : option (jsstring * jsstring) :=
  match digits s with
  | ([], _) => None
  | (ds, rest) => Some (ds, rest)
  end.

(** [0], or a non-zero digit followed by digits. *)
Definition JSONInt (s : jsstring) : option (jsstring * jsstring) :=
  match s with
  | c :: r =>
    if c =? 0x30 then Some ([c], r)
    else if isDigit c then let '(ds, rest) := digits r in Some (c :: ds, rest)
    else None
  | [] => None
  end.

Definition JSONFraction (s : jsstring) : option (jsstring * jsstring) :=
  match s with
  | c :: r => if c =? 0x2E then consFst c (digits1 r) else Some ([], s)
  | [] => Some ([], s)
  end.

Definition JSONExponent (s : jsstring) : option (jsstring * jsstring) :=
  match s with
  | c :: r =>
    if (c =? 0x65) || (c =? 0x45) then
      match r with
      | sg :: r' =>
        if (sg =? 0x2B) || (sg =? 0x2D)
        then consFst c (consFst sg (digits1 r'))
        else consFst c (digits1 r)
      | [] => None
      end
    else Some ([], s)
  | [] => Some ([], s)
  end.

Definition JSONSign (s : jsstring) : jsstring * jsstring :=
  match s with
  | c :: r => if c =? 0x2D then ([c], r) else ([], s)
  | [] => ([], s)
  end.

(** A JSON number: its literal and the rest of the text. *)
Definition JSONNumber (s : jsstring) : option (jsstring * jsstring) :=
  let '(sign, s0) := JSONSign s in
  match JSONInt s0 with
  | None => None
  | Some (i, s1) =>
    match JSONFraction s1 with
    | None => None
    | Some (f, s2) =>
      match JSONExponent s2 with
      | None => None
      | Some (e, s3) => Some (sign ++ i ++ f ++ e, s3)
      end
    end
  end.

(** The outcome of a parsing function: a value and the unread text, a
    [SyntaxError], or a recursion budget that ran out. *)
Inductive outcome (A : Type) : Type :=
| Parsed (a : A) (rest : jsstring)
| SyntaxError
| OutOfFuel.
Arguments Parsed {A} a rest.
Arguments SyntaxError {A}.
Arguments OutOfFuel {A}.

Definition mapOutcome {A B : Type} (g : A → B) (o : outcome A) : outcome B :=
  match o with
  | Parsed a rest => Parsed (g a) rest
  | SyntaxError => SyntaxError
  | OutOfFuel => OutOfFuel
  end.

(** The text after the punctuator [c], when [s] starts with it. *)
Definition accept (c : N) (s : jsstring) : option jsstring :=
  match s with
  | c' :: r => if c' =? c then Some r else None
  | [] => None
  end.

Definition literal {A : Type} (word : jsstring) (a : A) (s : jsstring) : outcome A :=
  if startsWith s word then Parsed a (drop (length word) s) else SyntaxError.

Fixpoint JSONValue (fuel : nat) (s : jsstring) : outcome json :=
  match fuel with
  | O => OutOfFuel
  | S f =>
    match skipWhiteSpace s with
    | [] => SyntaxError
    | c :: r =>
      if c =? 0x7B then
        match accept 0x7D (skipWhiteSpace r) with
        | Some r' => Parsed (JObject []) r'
        | None => mapOutcome JObject (JSONMembers f r)
        end
      else if c =? 0x5B then
        match accept 0x5D (skipWhiteSpace r) with
        | Some r' => Parsed (JArray []) r'
        | None => mapOutcome JArray (JSONElements f r)
        end
      else if c =? 0x22 then
        match JSONStringCharacters r with
        | Some (str, rest) => Parsed (JString str) rest
        | None => SyntaxError
        end
      else if c =? 0x6E then literal (js "null") JNull (c :: r)
      else if c =? 0x74 then literal (js "true") (JBool true) (c :: r)
      else if c =? 0x66 then literal (js "false") (JBool false) (c :: r)
      else
        match JSONNumber (c :: r) with
        | Some (lit, rest) => Parsed (JNumber lit) rest
        | None => SyntaxError
        end
    end
  end

(** After the opening bracket or a comma: a value, then a comma and more
    elements, or the closing bracket. *)
with JSONElements (fuel : nat) (s : jsstring) : outcome (list json) :=
  match fuel with
  | O => OutOfFuel
  | S f =>
    match JSONValue f s with
    | Parsed v r =>
      match skipWhiteSpace r with
      | c :: r' =>
        if c =? 0x2C then mapOutcome (cons v) (JSONElements f r')
        else if c =? 0x5D then Parsed [v] r'
        else SyntaxError
      | [] => SyntaxError
      end
    | SyntaxError => SyntaxError
    | OutOfFuel => OutOfFuel
    end
  end

(** After the opening brace or a comma: a member (a string, a colon, a
    value), then a comma and more members, or the closing brace. *)
with JSONMembers (fuel : nat) (s : jsstring) : outcome (list (jsstring * json)) :=
  match fuel with
  | O => OutOfFuel
  | S f =>
    match accept 0x22 (skipWhiteSpace s) with
    | None => SyntaxError
    | Some r0 =>
      match JSONStringCharacters r0 with
      | None => SyntaxError
      | Some (key, r1) =>
        match accept 0x3A (skipWhiteSpace r1) with
        | None => SyntaxError
        | Some r2 =>
          match JSONValue f r2 with
          | Parsed v r3 =>
            match skipWhiteSpace r3 with
            | c :: r4 =>
              if c =? 0x2C then mapOutcome (cons (key, v)) (JSONMembers f r4)
              else if c =? 0x7D then Parsed [(key, v)] r4
              else SyntaxError
            | [] => SyntaxError
            end
          | SyntaxError => SyntaxError
          | OutOfFuel => OutOfFuel
          end
        end
      end
    end
  end.

(** [JSON.parse(text)] without a reviver: [None] stands for the
    [SyntaxError] it throws.  The recursion budget is never the reason
    for [None] ([JSONValue_fuel] below). *)
Definition parse (text : jsstring) : option json :=
  match JSONValue (2 * length text + 1) text with
  | Parsed v rest =>
    match skipWhiteSpace rest with
    | [] => Some v
    | _ :: _ => None
    end
  | SyntaxError => None
  | OutOfFuel => None
  end.

End JSON.

(** ** The application *)

(** A note object.  [updated] is absent until the first edit. *)
Record Note : Type := {
  note_id : jsstring;
  note_title : jsstring;
  note_content : jsstring;
  note_created : jsstring;
  note_updated : option jsstring;
}.

#[global] Instance Note_eq_dec : EqDecision Note.
Proof. solve_decision. Defined.

(** The object [{ title, content }] that [NoteEditor] passes to [onSave]. *)
Record Edited : Type := {
  edited_title : jsstring;
  edited_content : jsstring;
}.

(** The four [useState] cells of [App]. *)
Record AppState : Type := {
  notes : list Note;
  search : jsstring;
  selectedNoteId : option jsstring;
  isCreatingNew : bool;
}.

(** What the host returns to one handler run: [Date.now()], the text of
    [Math.random().toString(36)], and [new Date().toISOString()].  The
    update branch of [handleSaveNote] evaluates [new Date()] once per
    matching array element, so the ISO reading is indexed by the position
    of the element being mapped; the create branch reads index 0. *)
Record Readings : Type := {
  Date_now : Z;
  Math_random_toString36 : jsstring;
  Date_toISOString : nat → jsstring;
}.

(** The calls a handler or an effect makes, in order: state setters and
    host functions. *)
Inductive Call : Type :=
| SetNotes (value : list Note)
| SetSearch (value : jsstring)
| SetSelectedNoteId (value : option jsstring)
| SetIsCreatingNew (value : bool)
| Alert (message : jsstring)
| Confirm (message : jsstring) (answer : bool)
| GetItem (key : jsstring)
| SetItem (key value : jsstring).

(** [Date.now().toString() + Math.random().toString(36).substr(2, 8)] *)
Definition generateId (r : Readings) : jsstring :=
  Number_toString (Date_now r) ++ substr (Math_random_toString36 r) 2 8.

(** [notes.find(note => note.id === selectedNoteId)] *)
Definition selectedNote (s : AppState) : option Note :=
  List.find (λ note, bool_decide (Some (note_id note) = selectedNoteId s)) (notes s).

Definition handleSearchChange (value : jsstring) : list Call :=
  [SetSearch value].

Definition handleCreateNoteClick : list Call :=
  [SetSelectedNoteId None; SetIsCreatingNew true].

Definition handleSelectNote (noteId : jsstring) : list Call :=
  [SetSelectedNoteId (Some noteId); SetIsCreatingNew false].

Definition confirmDelete : jsstring :=
  js "Delete this note? This action cannot be undone.".

Definition handleDeleteNote (s : AppState) (noteId : jsstring) (answer : bool) : list Call :=
  Confirm confirmDelete answer ::
  if answer then
    [SetNotes (filter (λ n, note_id n ≠ noteId) (notes s))]
    ++ (if decide (selectedNoteId s = Some noteId) then [SetSelectedNoteId None] else [])
    ++ [SetIsCreatingNew false]
  else [].

(** [{ ...n, ...edited, updated: now }] *)
Definition withEdit (n : Note) (edited : Edited) (now : jsstring) : Note :=
  {| note_id := note_id n;
     note_title := edited_title edited;
     note_content := edited_content edited;
     note_created := note_created n;
     note_updated := Some now |}.

Definition handleSaveNote (s : AppState) (r : Readings) (edited : Edited) : list Call :=
  if isCreatingNew s then
    let newId := generateId r in
    [SetNotes ({| note_id := newId;
                  note_title := edited_title edited;
                  note_content := edited_content edited;
                  note_created := Date_toISOString r 0;
                  note_updated := None |} :: notes s);
     SetSelectedNoteId (Some newId);
     SetIsCreatingNew false]
  else
    match selectedNote s with
    | Some _ =>
      [SetNotes (imap (λ i n, if decide (Some (note_id n) = selectedNoteId s)
                              then withEdit n edited (Date_toISOString r i)
                              else n) (notes s))]
    | None => []
    end.

Definition handleCancelEdit : list Call :=
  [SetSelectedNoteId None; SetIsCreatingNew false].

Definition cannotSaveEmpty : jsstring := js "Cannot save empty note!".

(** [NoteEditor]'s [handleSave], over the staged [title] and [content],
    with [onSave] bound to [handleSaveNote]. *)
Definition NoteEditor_handleSave (s : AppState) (r : Readings)
    (title content : jsstring) : list Call :=
  if bool_decide (trim title = []) && bool_decide (trim content = []) then
    [Alert cannotSaveEmpty]
  else
    handleSaveNote s r {| edited_title := trim title; edited_content := trim content |}.

(** *** The persisted snapshot *)

Definition notesKey : jsstring := js "notes".

(** The own properties of a note object, in creation order: [updated]
    is there only once it has been set. *)
Definition note_fields (n : Note) : list (jsstring * jsstring) :=
  [(js "id", note_id n); (js "title", note_title n);
   (js "content", note_content n); (js "created", note_created n)]
  ++ match note_updated n with
     | Some u => [(js "updated", u)]
     | None => []
     end.

Definition stringify_note (n : Note) : jsstring :=
  JSON.SerializeJSONObject (JSON.member_text <$> note_fields n).

(** [JSON.stringify(notes)] *)
Definition stringify_notes (ns : list Note) : jsstring :=
  JSON.SerializeJSONArray (stringify_note <$> ns).

(** A note as the JavaScript object it is. *)
Definition note_object (n : Note) : JSON.json :=
  JSON.JObject (JSON.member_value <$> note_fields n).

Definition notes_array (ns : list Note) : JSON.json :=
  JSON.JArray (note_object <$> ns).

(** The notes a parsed value denotes, when it is an array of objects
    with the string properties [id], [title], [content], [created] and
    optionally [updated], in that order. *)
Definition note_of_json (v : JSON.json) : option Note :=
  match v with
  | JSON.JObject [(k1, JSON.JString a); (k2, JSON.JString b);
                  (k3, JSON.JString c); (k4, JSON.JString d)] =>
    if bool_decide ([k1; k2; k3; k4] = [js "id"; js "title"; js "content"; js "created"])
    then Some {| note_id := a; note_title := b; note_content := c;
                 note_created := d; note_updated := None |}
    else None
  | JSON.JObject [(k1, JSON.JString a); (k2, JSON.JString b);
                  (k3, JSON.JString c); (k4, JSON.JString d); (k5, JSON.JString e)] =>
    if bool_decide ([k1; k2; k3; k4; k5]
                    = [js "id"; js "title"; js "content"; js "created"; js "updated"])
    then Some {| note_id := a; note_title := b; note_content := c;
                 note_created := d; note_updated := Some e |}
    else None
  | _ => None
  end.

Definition notes_of_json (v : JSON.json) : option (list Note) :=
  match v with
  | JSON.JArray vs => mapM note_of_json vs
  | _ => None
  end.

(** *** Rendering, events and the store *)

Section App.

(** [String.prototype.toLowerCase] *)
Variable toLowerCase : jsstring → jsstring.

(** [(note.title + " " + note.content).toLowerCase().includes(search.toLowerCase())] *)
Definition matchesSearch (query : jsstring) (note : Note) : bool :=
  includes (toLowerCase (note_title note ++ js " " ++ note_content note))
           (toLowerCase query).

(** [notes.filter(note => ...)] *)
Definition filter_notes (collection : list Note) (query : jsstring) : list Note :=
  filter (λ note, matchesSearch query note = true) collection.

Definition filteredNotes (s : AppState) : list Note :=
  filter_notes (notes s) (search s).

(** The user's events, each with what the host answers during it. *)
Inductive Event : Type :=
| SearchChange (value : jsstring)
| CreateNoteClick
| SelectNote (noteId : jsstring)
| DeleteNote (noteId : jsstring) (answer : bool)
| EditorSave (title content : jsstring) (r : Readings)
| EditorCancel.

(** The controls that exist in the rendered tree: a list item and its
    delete button for each filtered note; the editor form when a note
    is selected or a new one is being created. *)
Definition rendered (s : AppState) (ev : Event) : bool :=
  match ev with
  | SearchChange _ | CreateNoteClick => true
  | SelectNote noteId | DeleteNote noteId _ =>
    bool_decide (noteId ∈ note_id <$> filteredNotes s)
  | EditorSave _ _ _ | EditorCancel =>
    bool_decide (is_Some (selectedNote s)) || isCreatingNew s
  end.

Definition handler (s : AppState) (ev : Event) : list Call :=
  match ev with
  | SearchChange value => handleSearchChange value
  | CreateNoteClick => handleCreateNoteClick
  | SelectNote noteId => handleSelectNote noteId
  | DeleteNote noteId answer => handleDeleteNote s noteId answer
  | EditorSave title content r => NoteEditor_handleSave s r title content
  | EditorCancel => handleCancelEdit
  end.

End App.

(** The state after the setters of a handler run have been applied. *)
Definition apply_call (s : AppState) (c : Call) : AppState :=
  match c with
  | SetNotes v =>
    {| notes := v; search := search s;
       selectedNoteId := selectedNoteId s; isCreatingNew := isCreatingNew s |}
  | SetSearch v =>
    {| notes := notes s; search := v;
       selectedNoteId := selectedNoteId s; isCreatingNew := isCreatingNew s |}
  | SetSelectedNoteId v =>
    {| notes := notes s; search := search s;
       selectedNoteId := v; isCreatingNew := isCreatingNew s |}
  | SetIsCreatingNew v =>
    {| notes := notes s; search := search s;
       selectedNoteId := selectedNoteId s; isCreatingNew := v |}
  | Alert _ | Confirm _ _ | GetItem _ | SetItem _ _ => s
  end.

Definition commit (s : AppState) (calls : list Call) : AppState :=
  foldl apply_call s calls.

Definition isSetNotes (c : Call) : bool :=
  match c with SetNotes _ => true | _ => false end.

Definition isSetItem (c : Call) : bool :=
  match c with SetItem _ _ => true | _ => false end.


(** The component state together with [window.localStorage]. *)
Record World : Type := {
  app : AppState;
  localStorage : gmap jsstring jsstring;
}.

(** One event: the handler runs against the state of the last render,
    its setters are applied, and the [useEffect] that depends on [notes]
    runs when [setNotes] was given a (necessarily new) array. *)
Definition dispatch (w : World) (ev : Event) : World * list Call :=
  let calls := handler (app w) ev in
  let s' := commit (app w) calls in
  if existsb isSetNotes calls then
    let text := stringify_notes (notes s') in
    ({| app := s'; localStorage := <[notesKey := text]> (localStorage w) |},
     calls ++ [SetItem notesKey text])
  else
    ({| app := s'; localStorage := localStorage w |}, calls).

Definition initialState (ns : list Note) : AppState :=
  {| notes := ns; search := []; selectedNoteId := None; isCreatingNew := false |}.

(** How mounting [App] ends.

    [Running]: the component is mounted; the trace lists the storage
    calls made on the way.

    [UncaughtSyntaxError]: [JSON.parse] threw inside the [useState]
    initialiser and nothing catches it.  React runs a throwing
    initialiser again before it gives up, so the key is read more than
    once on this path; how often is React's business, and no trace is
    recorded.

    [OutsideDataModel]: not an outcome of the program but the boundary of
    this model.  The stored text is valid JSON and is not an array of
    objects with exactly the string properties of a note; [App] then
    either mounts with the value as it is and writes it back, or throws a
    [TypeError] while rendering, and a [list Note] cannot express
    either. *)
Inductive Mounted : Type :=
| Running (w : World) (trace : list Call)
| UncaughtSyntaxError
| OutsideDataModel (v : JSON.json).

(** First render and first effects: the [useState] initialiser reads
    the snapshot ([saved ? JSON.parse(saved) : []]), then the persistence
    effect writes it back. *)
Definition mount (storage : gmap jsstring jsstring) : Mounted :=
  let saved := storage !! notesKey in
  let start ns :=
    let text := stringify_notes ns in
    Running {| app := initialState ns; localStorage := <[notesKey := text]> storage |}
            [GetItem notesKey; SetItem notesKey text] in
  match saved with
  | None | Some [] => start []
  | Some text =>
    match JSON.parse text with
    | None => UncaughtSyntaxError
    | Some v =>
      match notes_of_json v with
      | Some ns => start ns
      | None => OutsideDataModel v
      end
    end
  end.

(** The state after a sequence of events, each on a control rendered in
    the state it arrives in; [None] when some event has no such control. *)
Fixpoint run (toLowerCase : jsstring → jsstring) (s : AppState)
    (evs : list Event) : option AppState :=
  match evs with
  | [] => Some s
  | ev :: rest =>
    if rendered toLowerCase s ev
    then run toLowerCase (commit s (handler s ev)) rest
    else None
  end.

(** [toLowerCase] restricted to the ASCII letters, to run examples. *)
Definition toLowerCase_ascii (s : jsstring) : jsstring :=
  (λ c, if (0x41 <=? c) && (c <=? 0x5A) then c + 0x20 else c) <$> s.

(** [selects P l l']: [l'] is [l] with exactly the elements that
    satisfy [P] kept, in their order; the subsequence that the
    specification of [filter] and of [delete] speaks of. *)
Inductive selects {A : Type} (P : A → Prop) : list A → list A → Prop :=
| selects_nil : selects P [] []
| selects_keep x l l' : P x → selects P l l' → selects P (x :: l) (x :: l')
| selects_drop x l l' : ¬ P x → selects P l l' → selects P (x :: l) l'.

(** [sub] occurs in [s]: the specification's substring. *)
Definition substring (sub s : jsstring) : Prop :=
  ∃ before after : jsstring, s = before ++ sub ++ after.

(** At most one of creating-new and a selected note, and a selected id
    belongs to a note of the collection. *)
Definition selection_ok (s : AppState) : Prop :=
  ¬ (isCreatingNew s = true ∧ selectedNoteId s ≠ None)
  ∧ ∀ i, selectedNoteId s = Some i → i ∈ note_id <$> notes s.

(** ** The rest of the component tree *)

(** *** Sequences of events on the store *)

(** What [dispatch] does once a handler has run: apply its setters, and
    run the persistence effect when [setNotes] was among them. *)
Definition settle (w : World) (calls : list Call) : World * list Call :=
  let s' := commit (app w) calls in
  if existsb isSetNotes calls then
    let text := stringify_notes (notes s') in
    ({| app := s'; localStorage := <[notesKey := text]> (localStorage w) |},
     calls ++ [SetItem notesKey text])
  else
    ({| app := s'; localStorage := localStorage w |}, calls).

(** The world after a sequence of events. *)
Definition runWorld (w : World) (evs : list Event) : World :=
  foldl (λ w ev, (dispatch w ev).1) w evs.

(** Does this event change the collection?  A confirmed delete does, and
    so does a save with something to save, in create mode or with a note
    selected. *)
Definition mutating (s : AppState) (ev : Event) : bool :=
  match ev with
  | DeleteNote _ answer => answer
  | EditorSave title content _ =>
    negb (bool_decide (trim title = []) && bool_decide (trim content = []))
    && (isCreatingNew s || bool_decide (is_Some (selectedNote s)))
  | SearchChange _ | CreateNoteClick | SelectNote _ | EditorCancel => false
  end.

(** A note as the editor writes one: something in it, and both fields
    trimmed. *)
Definition well_kept (n : Note) : Prop :=
  (note_title n ≠ [] ∨ note_content n ≠ [])
  ∧ trim (note_title n) = note_title n
  ∧ trim (note_content n) = note_content n.

(** *** The list pane *)

Definition ellipsis : jsstring := [0x2026].

(** The second line of a list item: absent for an empty content,
    otherwise [note.content.substring(0, 48)], followed by an ellipsis
    when the content is longer than 48 code units. *)
Definition contentPreview (note : Note) : option jsstring :=
  match note_content note with
  | [] => None
  | content =>
    Some (take 48 content ++ (if (48 <? length content)%nat then ellipsis else []))
  end.

Definition noNotesYet : jsstring :=
  js "No notes yet. Click + to create your first note!".

Definition noNotesFound : jsstring :=
  js "No notes found for your search" ++ ellipsis.

(** The placeholder item of the list, rendered when
    [filteredNotes.length === 0]. *)
Definition emptyListMessage (toLowerCase : jsstring → jsstring)
    (s : AppState) : option jsstring :=
  if (length (filteredNotes toLowerCase s) =? 0)%nat then
    Some (if (length (notes s) =? 0)%nat then noNotesYet else noNotesFound)
  else None.

(** *** The editor component *)

(** The two [useState] cells of a mounted [NoteEditor], with the [key]
    it was mounted under. *)
Record EditorState : Type := {
  editor_key : jsstring;
  staged_title : jsstring;
  staged_content : jsstring;
}.

(** [(selectedNote || isCreatingNew)]: is the editor in the tree? *)
Definition editorRendered (s : AppState) : bool :=
  bool_decide (is_Some (selectedNote s)) || isCreatingNew s.

(** [key={selectedNote && !isCreatingNew ? selectedNote.id : "new"}] *)
Definition NoteEditor_key (s : AppState) : jsstring :=
  match selectedNote s with
  | Some n => if isCreatingNew s then js "new" else note_id n
  | None => js "new"
  end.

(** The initial staged fields: [note ? note.title : ''] and the same for
    the content, for [note={isCreatingNew ? { title: "", content: "" } :
    selectedNote}]. *)
Definition NoteEditor_seed (s : AppState) : jsstring * jsstring :=
  if isCreatingNew s then ([], [])
  else match selectedNote s with
       | Some n => (note_title n, note_content n)
       | None => ([], [])
       end.

(** The editor after [App] has rendered state [s], given the editor
    there was before: kept with its staged fields when it stays in the
    tree under the same key, mounted afresh from the seed otherwise. *)
Definition reconcile (s : AppState) (prev : option EditorState) : option EditorState :=
  if editorRendered s then
    let fresh := {| editor_key := NoteEditor_key s;
                    staged_title := (NoteEditor_seed s).1;
                    staged_content := (NoteEditor_seed s).2 |} in
    match prev with
    | Some ed => if decide (editor_key ed = NoteEditor_key s) then Some ed else Some fresh
    | None => Some fresh
    end
  else None.

(** The store together with the editor component. *)
Record Page : Type := {
  world : World;
  editor : option EditorState;
}.

(** What the user does, on the page, each input named by the handler
    it reaches: [Submit] is the form's submit event, whichever way the
    browser comes to fire it, and [ClickCancel] is a call of [onCancel].
    Key presses are not inputs of their own: which of them the browser
    turns into a submit event is not written in this program. *)
Inductive Input : Type :=
| TypeSearch (value : jsstring)
| ClickAdd
| ClickNote (noteId : jsstring)
| ClickDelete (noteId : jsstring) (answer : bool)
| TypeTitle (value : jsstring)
| TypeContent (value : jsstring)
| Submit (r : Readings)
| ClickCancel.

(** The calls an input leads to.  The inputs of the form reach a
    handler only while the form is mounted. *)
Definition input_calls (p : Page) (i : Input) : list Call :=
  match i with
  | TypeSearch value => handleSearchChange value
  | ClickAdd => handleCreateNoteClick
  | ClickNote noteId => handleSelectNote noteId
  | ClickDelete noteId answer => handleDeleteNote (app (world p)) noteId answer
  | TypeTitle _ | TypeContent _ => []
  | Submit r =>
    match editor p with
    | Some ed => NoteEditor_handleSave (app (world p)) r (staged_title ed) (staged_content ed)
    | None => []
    end
  | ClickCancel =>
    match editor p with
    | Some _ => handleCancelEdit
    | None => []
    end
  end.

(** [setTitle(e.target.value)] and [setContent(e.target.value)] *)
Definition type_into (ed : option EditorState) (i : Input) : option EditorState :=
  match i, ed with
  | TypeTitle value, Some e =>
    Some {| editor_key := editor_key e; staged_title := value;
            staged_content := staged_content e |}
  | TypeContent value, Some e =>
    Some {| editor_key := editor_key e; staged_title := staged_title e;
            staged_content := value |}
  | _, _ => ed
  end.

(** One input: its handler runs, the store settles, and the tree is
    rendered again. *)
Definition interact (p : Page) (i : Input) : Page * list Call :=
  let '(w', trace) := settle (world p) (input_calls p i) in
  ({| world := w'; editor := reconcile (app w') (type_into (editor p) i) |}, trace).

(** The page after a sequence of inputs. *)
Definition interacts (p : Page) (inputs : list Input) : Page :=
  foldl (λ p i, (interact p i).1) p inputs.

(** The page right after mounting a world. *)
Definition openPage (w : World) : Page :=
  {| world := w; editor := reconcile (app w) None |}.

(** *** Values for examples *)

Definition sampleReadings : Readings :=
  {| Date_now := 1717000000123;
     Math_random_toString36 := js "0.4fzyo82mv";
     Date_toISOString := λ _, js "2024-05-29T16:26:40.123Z" |}.

Definition laterReadings : Readings :=
  {| Date_now := 1717000100000;
     Math_random_toString36 := js "0.zzk3";
     Date_toISOString := λ _, js "2024-05-29T16:28:20.000Z" |}.

Definition groceries : Note :=
  {| note_id := js "a1"; note_title := js "Groceries";
     note_content := js "milk, eggs";
     note_created := js "2024-05-29T16:26:40.123Z"; note_updated := None |}.

Definition callSam : Note :=
  {| note_id := js "b2"; note_title := js "Call Sam"; note_content := [];
     note_created := js "2024-05-28T10:00:00.000Z"; note_updated := None |}.

(** Readings in the same millisecond as [sampleReadings], with a random
    number that differs from its one only after the eighth base-36
    digit. *)
Definition collidingReadings : Readings :=
  {| Date_now := 1717000000123;
     Math_random_toString36 := js "0.4fzyo82mw";
     Date_toISOString := λ _, js "2024-05-29T16:26:40.123Z" |}.

(** Two notes created one after the other from those readings. *)
Definition twinEvents : list Event :=
  [CreateNoteClick; EditorSave (js "first") [] sampleReadings;
   CreateNoteClick; EditorSave (js "second") [] collidingReadings].

Definition firstTwin : Note :=
  {| note_id := js "17170000001234fzyo82m"; note_title := js "first";
     note_content := []; note_created := js "2024-05-29T16:26:40.123Z";
     note_updated := None |}.

Definition secondTwin : Note :=
  {| note_id := js "17170000001234fzyo82m"; note_title := js "second";
     note_content := []; note_created := js "2024-05-29T16:26:40.123Z";
     note_updated := None |}.

(** The world right after mounting on an empty storage. *)
Definition emptyWorld : World :=
  {| app := initialState [];
     localStorage := <[notesKey := stringify_notes []]> ∅ |}.

(** * Properties *)

(** ** Strings *)

Lemma startsWith_spec (s p : jsstring) :
  startsWith s p = true ↔ ∃ r, s = p ++ r.
Proof.
  revert s. induction p as [|a p IH]; intros s; simpl.
  - split; [by exists s|done].
  - destruct s as [|b s].
    + split; [done|by intros [r ?]].
    + rewrite andb_true_iff, N.eqb_eq, IH. split.
      * intros [-> [r ->]]. by exists r.
      * intros [r [= -> ->]]. split; [done|by exists r].
Qed.

Lemma includes_spec (s sub : jsstring) :
  includes s sub = true ↔ substring sub s.
Proof.
  unfold substring. induction s as [|c s IH]; simpl.
  - rewrite orb_false_r, startsWith_spec. split.
    + intros [r ->]. by exists [], r.
    + intros (before & after & H). symmetry in H.
      apply app_eq_nil in H as [-> H]. exists after. by rewrite H.
  - rewrite orb_true_iff, IH, startsWith_spec. split.
    + intros [[r ->]|(before & after & ->)].
      * by exists [], r.
      * by exists (c :: before), after.
    + intros (before & after & H). destruct before as [|b before].
      * left. by exists after.
      * injection H as -> ->. right. by exists before, after.
Qed.

Lemma includes_nil (s : jsstring) : includes s [] = true.
Proof. apply includes_spec. by exists [], s. Qed.

Lemma trimStart_spec (s : jsstring) :
  ∃ ws, s = ws ++ trimStart s
        ∧ Forall (λ c, isWhiteSpace c = true) ws
        ∧ (∀ c r, trimStart s = c :: r → isWhiteSpace c = false).
Proof.
  induction s as [|c s (ws & E & Hws & Hhd)]; simpl.
  - exists []. by repeat split.
  - destruct (isWhiteSpace c) eqn:Hc.
    + exists (c :: ws). repeat split; [simpl; by f_equal|by constructor|done].
    + exists []. repeat split; [constructor|]. by intros ? ? [= <- _].
Qed.

(** [trim] removes a run of white space at each end and nothing else,
    and what remains neither starts nor ends with white space. *)
Lemma trim_spec (s : jsstring) :
  ∃ front back,
    s = front ++ trim s ++ back
    ∧ Forall (λ c, isWhiteSpace c = true) front
    ∧ Forall (λ c, isWhiteSpace c = true) back
    ∧ (∀ c r, trim s = c :: r → isWhiteSpace c = false)
    ∧ (∀ c r, trim s = r ++ [c] → isWhiteSpace c = false).
Proof.
  destruct (trimStart_spec s) as (front & E1 & Hfront & Hhd).
  destruct (trimStart_spec (reverse (trimStart s))) as (kcab & E2 & Hback & Hlast).
  exists front, (reverse kcab). unfold trim, trimEnd.
  assert (Emid : trimStart s
                 = reverse (trimStart (reverse (trimStart s))) ++ reverse kcab).
  { rewrite <- reverse_app, <- E2. by rewrite reverse_involutive. }
  repeat split.
  - by rewrite <- Emid.
  - done.
  - by apply Forall_reverse.
  - intros c r Hc. destruct (trimStart (reverse (trimStart s))) as [|d t] eqn:Et.
    + by rewrite reverse_nil in Hc.
    + apply (Hhd c (r ++ reverse kcab)). by rewrite Emid, Hc.
  - intros c r Hc. apply (Hlast c (reverse r)).
    apply (inj reverse). by rewrite Hc, reverse_cons, reverse_involutive.
Qed.

Lemma uint_units_inj (u v : Decimal.uint) : uint_units u = uint_units v → u = v.
Proof.
  revert v. induction u; intros v; destruct v; simpl; try done;
    intros [= ?]; f_equal; auto.
Qed.

Lemma uint_units_digits (u : Decimal.uint) :
  Forall (λ c, 0x30 ≤ c ≤ 0x39) (uint_units u).
Proof. induction u; simpl; constructor; try done; unfold digit_unit; lia. Qed.

Lemma Number_toString_inj (a b : Z) :
  Number_toString a = Number_toString b → a = b.
Proof.
  unfold Number_toString. intros H. apply DecimalZ.to_int_inj.
  destruct (Z.to_int a) as [u|u] eqn:Ea, (Z.to_int b) as [v|v] eqn:Eb.
  - f_equal. by apply uint_units_inj.
  - exfalso. pose proof (uint_units_digits u) as Hd. rewrite H in Hd.
    apply Forall_cons in Hd as [[? ?] _]. lia.
  - exfalso. pose proof (uint_units_digits v) as Hd. rewrite <- H in Hd.
    apply Forall_cons in Hd as [[? ?] _]. lia.
  - injection H as H. f_equal. by apply uint_units_inj.
Qed.

Lemma uint_units_nonnil (u : Decimal.uint) :
  u ≠ Decimal.Nil → ∃ c t, uint_units u = c :: t ∧ 0x30 ≤ c ≤ 0x39.
Proof.
  destruct u; [done|..]; intros _; simpl; do 2 eexists;
    (split; [reflexivity|unfold digit_unit; lia]).
Qed.

(** A printed integer starts with a digit or with the minus sign. *)
Lemma Number_toString_head (z : Z) :
  ∃ c t, Number_toString z = c :: t ∧ (c = 0x2D ∨ 0x30 ≤ c ≤ 0x39).
Proof.
  unfold Number_toString. destruct z as [|p|p]; simpl.
  - exists 0x30, []. split; [done|right; lia].
  - destruct (uint_units_nonnil (Pos.to_uint p)) as (c & t & -> & Hc).
    { apply DecimalPos.Unsigned.to_uint_nonnil. }
    exists c, t. by split; [|right].
  - exists 0x2D, (uint_units (Pos.to_uint p)). by split; [|left].
Qed.


(** ** JSON: the parser consumes its input and never runs out of fuel *)

Module JSONFacts.
Import JSON.

Lemma skipWhiteSpace_length (s : jsstring) :
  (length (skipWhiteSpace s) ≤ length s)%nat.
Proof.
  induction s as [|c s IH]; simpl; [done|].
  destruct (isJSONWhiteSpace c); simpl; lia.
Qed.

Lemma accept_Some (c : N) (s r : jsstring) :
  accept c s = Some r ↔ s = c :: r.
Proof.
  destruct s as [|c' s]; simpl; [done|].
  destruct (N.eqb_spec c' c) as [->|Hne]; split; congruence.
Qed.

Lemma consFst_Some {A B : Type} (a : A) (o : option (list A * B)) l b :
  consFst a o = Some (l, b) ↔ ∃ l', o = Some (l', b) ∧ l = a :: l'.
Proof.
  destruct o as [[l' b']|]; simpl.
  - split; [intros [= <- <-]; by eexists|intros (? & [= <- <-] & ->); done].
  - split; [done|by intros (? & ? & ?)].
Qed.

Lemma JSONStringCharacters_length (s str r : jsstring) :
  JSONStringCharacters s = Some (str, r) → (length r < length s)%nat.
Proof.
  assert (Hn : (length s < S (length s))%nat) by lia.
  revert Hn. generalize (S (length s)) as n. intros n. revert s str r.
  induction n as [|n IH]; intros s str r Hn H; [lia|].
  destruct s as [|c s]; simpl in H; [done|].
  destruct (c =? 0x22).
  { injection H as _ <-. simpl. lia. }
  destruct (c =? 0x5C).
  - destruct s as [|e s]; [done|].
    destruct (e =? 0x75).
    + destruct s as [|h1 [|h2 [|h3 [|h4 s]]]]; try done.
      destruct (hex4 h1 h2 h3 h4); [|done].
      apply consFst_Some in H as (str' & H & _).
      apply IH in H; simpl in *; lia.
    + destruct (escapeChar e); [|done].
      apply consFst_Some in H as (str' & H & _).
      apply IH in H; simpl in *; lia.
  - destruct (c <? 0x20); [done|].
    apply consFst_Some in H as (str' & H & _).
    apply IH in H; simpl in *; lia.
Qed.

Lemma digits_length (s : jsstring) : (length (digits s).2 ≤ length s)%nat.
Proof.
  induction s as [|c s IH]; simpl; [done|].
  destruct (isDigit c); simpl; [|lia].
  destruct (digits s); simpl in *. lia.
Qed.

Lemma digits1_length (s ds r : jsstring) :
  digits1 s = Some (ds, r) → (length r ≤ length s)%nat.
Proof.
  unfold digits1. pose proof (digits_length s) as Hd.
  destruct (digits s) as [[|d ds'] rest]; [done|]. by intros [= _ <-].
Qed.

Lemma JSONNumber_length (s lit r : jsstring) :
  JSONNumber s = Some (lit, r) → (length r < length s)%nat.
Proof.
  unfold JSONNumber.
  assert (Hsign : (length (JSONSign s).2 ≤ length s)%nat).
  { destruct s as [|c s]; simpl; [done|]. destruct (c =? 0x2D); simpl; lia. }
  destruct (JSONSign s) as [sign s0]; simpl in Hsign.
  destruct (JSONInt s0) as [[i s1]|] eqn:Hint; [|done].
  assert (H1 : (length s1 < length s0)%nat).
  { destruct s0 as [|c s0]; simpl in Hint; [done|].
    destruct (c =? 0x30); [injection Hint as _ <-; simpl; lia|].
    destruct (isDigit c); [|done].
    pose proof (digits_length s0) as Hd. destruct (digits s0).
    injection Hint as _ <-. simpl in *. lia. }
  destruct (JSONFraction s1) as [[f s2]|] eqn:Hfrac; [|done].
  assert (H2 : (length s2 ≤ length s1)%nat).
  { destruct s1 as [|c s1]; simpl in Hfrac; [by injection Hfrac as _ <-|].
    destruct (c =? 0x2E).
    - apply consFst_Some in Hfrac as (? & Hfrac%digits1_length & _). simpl. lia.
    - by injection Hfrac as _ <-. }
  destruct (JSONExponent s2) as [[e s3]|] eqn:Hexp; [|done].
  assert (H3 : (length s3 ≤ length s2)%nat).
  { destruct s2 as [|c s2]; simpl in Hexp; [by injection Hexp as _ <-|].
    destruct ((c =? 0x65) || (c =? 0x45)); [|by injection Hexp as _ <-].
    destruct s2 as [|sg s2]; [done|].
    destruct ((sg =? 0x2B) || (sg =? 0x2D)).
    - apply consFst_Some in Hexp as (? & Hexp & _).
      apply consFst_Some in Hexp as (? & Hexp%digits1_length & _). simpl. lia.
    - apply consFst_Some in Hexp as (? & Hexp%digits1_length & _). simpl in *. lia. }
  intros [= _ <-]. lia.
Qed.

Lemma literal_length {A : Type} (word : jsstring) (a a' : A) (s r : jsstring) :
  word ≠ [] → literal word a s = Parsed a' r → (length r < length s)%nat.
Proof.
  unfold literal. intros Hword.
  destruct (startsWith s word) eqn:Hs; [|done].
  apply startsWith_spec in Hs as [t ->]. intros [= _ <-].
  rewrite drop_app_length, length_app. destruct word; [done|simpl; lia].
Qed.

Lemma mapOutcome_Parsed {A B : Type} (g : A → B) (o : outcome A) b r :
  mapOutcome g o = Parsed b r → ∃ a, o = Parsed a r ∧ b = g a.
Proof. destruct o; simpl; [intros [= <- <-]; by eexists|done|done]. Qed.

Lemma mapOutcome_OutOfFuel {A B : Type} (g : A → B) (o : outcome A) :
  mapOutcome g o = OutOfFuel → o = OutOfFuel.
Proof. by destruct o. Qed.

(** Whatever the three parsing functions return, they return it with
    less text left than they were given. *)
Lemma JSON_consumes (fuel : nat) :
  (∀ s v r, JSONValue fuel s = Parsed v r → (length r < length s)%nat)
  ∧ (∀ s vs r, JSONElements fuel s = Parsed vs r → (length r < length s)%nat)
  ∧ (∀ s ms r, JSONMembers fuel s = Parsed ms r → (length r < length s)%nat).
Proof.
  induction fuel as [|f (IHv & IHe & IHm)]; [by repeat split|].
  repeat split.
  - intros s v r. simpl. pose proof (skipWhiteSpace_length s) as Hs.
    destruct (skipWhiteSpace s) as [|c t]; [done|]. simpl in Hs.
    pose proof (skipWhiteSpace_length t) as Ht.
    destruct (c =? 0x7B).
    { destruct (accept 0x7D (skipWhiteSpace t)) as [r'|] eqn:Ha.
      - apply accept_Some in Ha. rewrite Ha in Ht. intros [= _ <-]. simpl in Ht. lia.
      - intros (ms & H%IHm & _)%mapOutcome_Parsed. lia. }
    destruct (c =? 0x5B).
    { destruct (accept 0x5D (skipWhiteSpace t)) as [r'|] eqn:Ha.
      - apply accept_Some in Ha. rewrite Ha in Ht. intros [= _ <-]. simpl in Ht. lia.
      - intros (ms & H%IHe & _)%mapOutcome_Parsed. lia. }
    destruct (c =? 0x22).
    { destruct (JSONStringCharacters t) as [[str rest]|] eqn:Hstr; [|done].
      apply JSONStringCharacters_length in Hstr. intros [= _ <-]. lia. }
    destruct (c =? 0x6E); [intros H%literal_length; [simpl in H; lia|done]|].
    destruct (c =? 0x74); [intros H%literal_length; [simpl in H; lia|done]|].
    destruct (c =? 0x66); [intros H%literal_length; [simpl in H; lia|done]|].
    destruct (JSONNumber (c :: t)) as [[lit rest]|] eqn:Hnum; [|done].
    apply JSONNumber_length in Hnum. intros [= _ <-]. simpl in Hnum. lia.
  - intros s vs r. simpl.
    destruct (JSONValue f s) as [v t| |] eqn:Hv; [|done|done].
    apply IHv in Hv. pose proof (skipWhiteSpace_length t) as Ht.
    destruct (skipWhiteSpace t) as [|c t']; [done|]. simpl in Ht.
    destruct (c =? 0x2C).
    { intros (ms & H%IHe & _)%mapOutcome_Parsed. lia. }
    destruct (c =? 0x5D); [|done]. intros [= _ <-]. lia.
  - intros s ms r. simpl. pose proof (skipWhiteSpace_length s) as Hs.
    destruct (accept 0x22 (skipWhiteSpace s)) as [r0|] eqn:H0; [|done].
    apply accept_Some in H0. rewrite H0 in Hs. simpl in Hs.
    destruct (JSONStringCharacters r0) as [[key r1]|] eqn:Hkey; [|done].
    apply JSONStringCharacters_length in Hkey.
    pose proof (skipWhiteSpace_length r1) as H1.
    destruct (accept 0x3A (skipWhiteSpace r1)) as [r2|] eqn:H2; [|done].
    apply accept_Some in H2. rewrite H2 in H1. simpl in H1.
    destruct (JSONValue f r2) as [v r3| |] eqn:Hv; [|done|done].
    apply IHv in Hv. pose proof (skipWhiteSpace_length r3) as H3.
    destruct (skipWhiteSpace r3) as [|c r4]; [done|]. simpl in H3.
    destruct (c =? 0x2C).
    { intros (ms' & H%IHm & _)%mapOutcome_Parsed. lia. }
    destruct (c =? 0x7D); [|done]. intros [= _ <-]. lia.
Qed.

(** With a budget above twice the length of the text, the parsing
    functions never stop for lack of fuel. *)
Lemma JSON_fuel (fuel : nat) :
  (∀ s, (2 * length s < fuel)%nat → JSONValue fuel s ≠ OutOfFuel)
  ∧ (∀ s, (2 * length s + 1 < fuel)%nat → JSONElements fuel s ≠ OutOfFuel)
  ∧ (∀ s, (2 * length s + 1 < fuel)%nat → JSONMembers fuel s ≠ OutOfFuel).
Proof.
  induction fuel as [|f (IHv & IHe & IHm)]; [repeat split; intros; lia|].
  destruct (JSON_consumes f) as (Cv & Ce & Cm).
  repeat split.
  - intros s Hf. simpl. pose proof (skipWhiteSpace_length s) as Hs.
    destruct (skipWhiteSpace s) as [|c t]; [done|]. simpl in Hs.
    destruct (c =? 0x7B).
    { destruct (accept 0x7D (skipWhiteSpace t)); [done|].
      intros H%mapOutcome_OutOfFuel. revert H. apply IHm. lia. }
    destruct (c =? 0x5B).
    { destruct (accept 0x5D (skipWhiteSpace t)); [done|].
      intros H%mapOutcome_OutOfFuel. revert H. apply IHe. lia. }
    destruct (c =? 0x22); [by destruct (JSONStringCharacters t) as [[? ?]|]|].
    unfold literal.
    destruct (c =? 0x6E); [by destruct (startsWith _ _)|].
    destruct (c =? 0x74); [by destruct (startsWith _ _)|].
    destruct (c =? 0x66); [by destruct (startsWith _ _)|].
    by destruct (JSONNumber (c :: t)) as [[? ?]|].
  - intros s Hf. simpl.
    destruct (JSONValue f s) as [v t| |] eqn:Hv; [|done|].
    + apply Cv in Hv. pose proof (skipWhiteSpace_length t) as Ht.
      destruct (skipWhiteSpace t) as [|c t']; [done|]. simpl in Ht.
      destruct (c =? 0x2C).
      { intros H%mapOutcome_OutOfFuel. revert H. apply IHe. lia. }
      by destruct (c =? 0x5D).
    + exfalso. revert Hv. apply IHv. lia.
  - intros s Hf. simpl. pose proof (skipWhiteSpace_length s) as Hs.
    destruct (accept 0x22 (skipWhiteSpace s)) as [r0|] eqn:H0; [|done].
    apply accept_Some in H0. rewrite H0 in Hs. simpl in Hs.
    destruct (JSONStringCharacters r0) as [[key r1]|] eqn:Hkey; [|done].
    apply JSONStringCharacters_length in Hkey.
    pose proof (skipWhiteSpace_length r1) as H1.
    destruct (accept 0x3A (skipWhiteSpace r1)) as [r2|] eqn:H2; [|done].
    apply accept_Some in H2. rewrite H2 in H1. simpl in H1.
    destruct (JSONValue f r2) as [v r3| |] eqn:Hv; [|done|].
    + apply Cv in Hv. pose proof (skipWhiteSpace_length r3) as H3.
      destruct (skipWhiteSpace r3) as [|c r4]; [done|]. simpl in H3.
      destruct (c =? 0x2C).
      { intros H%mapOutcome_OutOfFuel. revert H. apply IHm. lia. }
      by destruct (c =? 0x7D).
    + exfalso. revert Hv. apply IHv. lia.
Qed.

(** [parse] answers [None] only for a syntax error: its budget is
    enough for every text. *)
Lemma JSONValue_fuel (text : jsstring) :
  JSONValue (2 * length text + 1) text ≠ OutOfFuel.
Proof. apply JSON_fuel. lia. Qed.

Lemma parse_None (text : jsstring) :
  parse text = None →
  JSONValue (2 * length text + 1) text = SyntaxError
  ∨ ∃ v c rest, JSONValue (2 * length text + 1) text = Parsed v rest
                ∧ ∃ t, skipWhiteSpace rest = c :: t.
Proof.
  unfold parse. pose proof (JSONValue_fuel text) as Hfuel.
  destruct (JSONValue (2 * length text + 1) text) as [v rest| |]; [|by left|done].
  destruct (skipWhiteSpace rest) as [|c t] eqn:E; [done|].
  intros _. right. exists v, c, rest. split; [done|by exists t].
Qed.

End JSONFacts.

(** ** JSON: what [QuoteJSONString] writes, the parser reads back *)

Module JSONRoundTrip.
Import JSON.

(** Bring a text built with [++] into the form the parser's equations
    match: right-nested, its first characters as conses. *)
Ltac text_norm :=
  repeat (rewrite <- app_assoc || rewrite <- app_comm_cons || rewrite app_nil_l).

Lemma hexValue_hexDigit (n : N) : n < 16 → hexValue (hexDigit n) = Some n.
Proof.
  intros Hn. unfold hexDigit, hexValue, isDigit.
  destruct (N.ltb_spec n 10).
  - replace ((0x30 <=? 0x30 + n) && (0x30 + n <=? 0x39)) with true.
    + f_equal. lia.
    + symmetry. apply andb_true_iff. split; apply N.leb_le; lia.
  - replace ((0x30 <=? 0x57 + n) && (0x57 + n <=? 0x39)) with false.
    + replace ((0x61 <=? 0x57 + n) && (0x57 + n <=? 0x66)) with true.
      * f_equal. lia.
      * symmetry. apply andb_true_iff. split; apply N.leb_le; lia.
    + symmetry. apply andb_false_iff. right. apply N.leb_gt. lia.
Qed.

Lemma hex4_UnicodeEscape (c : N) :
  c < 65536 →
  hex4 (hexDigit (c / 4096 mod 16)) (hexDigit (c / 256 mod 16))
       (hexDigit (c / 16 mod 16)) (hexDigit (c mod 16)) = Some c.
Proof.
  intros Hc. unfold hex4.
  rewrite !hexValue_hexDigit by (apply N.mod_lt; lia).
  f_equal. zify. Z.to_euclidean_division_equations. lia.
Qed.

(** A character that needs no escape is read as itself. *)
Lemma JSONStringCharacters_plain (c : N) (t : jsstring) :
  c ≠ 0x22 → c ≠ 0x5C → 0x20 ≤ c →
  JSONStringCharacters (c :: t) = consFst c (JSONStringCharacters t).
Proof.
  intros H1 H2 H3. simpl.
  destruct (N.eqb_spec c 0x22); [done|].
  destruct (N.eqb_spec c 0x5C); [done|].
  destruct (N.ltb_spec c 0x20); [lia|done].
Qed.

Lemma JSONStringCharacters_escape (e u : N) (t : jsstring) :
  e ≠ 0x75 → escapeChar e = Some u →
  JSONStringCharacters (0x5C :: e :: t) = consFst u (JSONStringCharacters t).
Proof.
  intros H1 H2. cbn [JSONStringCharacters]. change (0x5C =? 0x22) with false.
  change (0x5C =? 0x5C) with true. cbv iota.
  destruct (N.eqb_spec e 0x75); [done|]. by rewrite H2.
Qed.

Lemma JSONStringCharacters_u (h1 h2 h3 h4 u : N) (t : jsstring) :
  hex4 h1 h2 h3 h4 = Some u →
  JSONStringCharacters (0x5C :: 0x75 :: h1 :: h2 :: h3 :: h4 :: t)
  = consFst u (JSONStringCharacters t).
Proof.
  intros H. cbn [JSONStringCharacters]. change (0x5C =? 0x22) with false.
  change (0x5C =? 0x5C) with true. change (0x75 =? 0x75) with true. cbv iota.
  by rewrite H.
Qed.

Lemma JSONStringCharacters_UnicodeEscape (c : N) (t : jsstring) :
  c < 65536 →
  JSONStringCharacters (UnicodeEscape c ++ t) = consFst c (JSONStringCharacters t).
Proof.
  intros Hc. by apply JSONStringCharacters_u, hex4_UnicodeEscape.
Qed.

(** One quoted code point is read back as that code point. *)
Lemma JSONStringCharacters_quoteCodePoint (c : N) (t : jsstring) :
  JSONStringCharacters (quoteCodePoint c ++ t) = consFst c (JSONStringCharacters t).
Proof.
  unfold quoteCodePoint.
  destruct (N.eqb_spec c 0x08) as [->|?]; [by apply JSONStringCharacters_escape|].
  destruct (N.eqb_spec c 0x09) as [->|?]; [by apply JSONStringCharacters_escape|].
  destruct (N.eqb_spec c 0x0A) as [->|?]; [by apply JSONStringCharacters_escape|].
  destruct (N.eqb_spec c 0x0C) as [->|?]; [by apply JSONStringCharacters_escape|].
  destruct (N.eqb_spec c 0x0D) as [->|?]; [by apply JSONStringCharacters_escape|].
  destruct (N.eqb_spec c 0x22) as [->|?]; [by apply JSONStringCharacters_escape|].
  destruct (N.eqb_spec c 0x5C) as [->|?]; [by apply JSONStringCharacters_escape|].
  destruct ((c <? 0x20) || isLeadingSurrogate c || isTrailingSurrogate c) eqn:E.
  - apply JSONStringCharacters_UnicodeEscape.
    unfold isLeadingSurrogate, isTrailingSurrogate in E.
    apply orb_true_iff in E as [E|E]; [apply orb_true_iff in E as [E|E]|].
    + apply N.ltb_lt in E. lia.
    + apply andb_true_iff in E as [_ E%N.leb_le]. lia.
    + apply andb_true_iff in E as [_ E%N.leb_le]. lia.
  - apply orb_false_iff in E as [E _]. apply orb_false_iff in E as [E%N.ltb_ge _].
    by apply JSONStringCharacters_plain.
Qed.

Lemma surrogate_plain (c : N) :
  isLeadingSurrogate c = true ∨ isTrailingSurrogate c = true →
  c ≠ 0x22 ∧ c ≠ 0x5C ∧ 0x20 ≤ c.
Proof.
  unfold isLeadingSurrogate, isTrailingSurrogate.
  intros [[H%N.leb_le _]%andb_true_iff|[H%N.leb_le _]%andb_true_iff]; lia.
Qed.

Lemma quoteUnits_cons2 (c d : N) (s : jsstring) :
  quoteUnits (c :: d :: s)
  = if isLeadingSurrogate c && isTrailingSurrogate d
    then c :: d :: quoteUnits s
    else quoteCodePoint c ++ quoteUnits (d :: s).
Proof. reflexivity. Qed.

(** The body of a quoted string, then the closing quote, is read back
    as the string. *)
Lemma JSONStringCharacters_quoteUnits (s rest : jsstring) :
  JSONStringCharacters (quoteUnits s ++ 0x22 :: rest) = Some (s, rest).
Proof.
  assert (Hn : (length s < S (length s))%nat) by lia.
  revert Hn. generalize (S (length s)) as n. intros n. revert s.
  induction n as [|n IH]; intros s Hn; [lia|].
  destruct s as [|c [|d s]].
  - done.
  - simpl. rewrite JSONStringCharacters_quoteCodePoint. done.
  - rewrite quoteUnits_cons2.
    destruct (isLeadingSurrogate c && isTrailingSurrogate d) eqn:E.
    + apply andb_true_iff in E as [Hc Hd].
      destruct (surrogate_plain c) as (? & ? & ?); [by left|].
      destruct (surrogate_plain d) as (? & ? & ?); [by right|].
      rewrite <- !app_comm_cons, !JSONStringCharacters_plain by done.
      rewrite IH by (simpl in *; lia). done.
    + rewrite <- app_assoc, JSONStringCharacters_quoteCodePoint.
      rewrite IH by (simpl in *; lia). done.
Qed.

Lemma skipWhiteSpace_cons (c : N) (t : jsstring) :
  isJSONWhiteSpace c = false → skipWhiteSpace (c :: t) = c :: t.
Proof. intros H. simpl. by rewrite H. Qed.

Lemma JSONValue_quote (f : nat) (r : jsstring) :
  JSONValue (S f) (0x22 :: r)
  = match JSONStringCharacters r with
    | Some (str, rest) => Parsed (JString str) rest
    | None => SyntaxError
    end.
Proof. reflexivity. Qed.

Lemma JSONValue_brace (f : nat) (r : jsstring) :
  JSONValue (S f) (0x7B :: r)
  = match accept 0x7D (skipWhiteSpace r) with
    | Some r' => Parsed (JObject []) r'
    | None => mapOutcome JObject (JSONMembers f r)
    end.
Proof. reflexivity. Qed.

Lemma JSONValue_bracket (f : nat) (r : jsstring) :
  JSONValue (S f) (0x5B :: r)
  = match accept 0x5D (skipWhiteSpace r) with
    | Some r' => Parsed (JArray []) r'
    | None => mapOutcome JArray (JSONElements f r)
    end.
Proof. reflexivity. Qed.

Lemma JSONMembers_quote (f : nat) (r0 : jsstring) :
  JSONMembers (S f) (0x22 :: r0)
  = match JSONStringCharacters r0 with
    | None => SyntaxError
    | Some (key, r1) =>
      match accept 0x3A (skipWhiteSpace r1) with
      | None => SyntaxError
      | Some r2 =>
        match JSONValue f r2 with
        | Parsed v r3 =>
          match skipWhiteSpace r3 with
          | c :: r4 =>
            if c =? 0x2C then mapOutcome (cons (key, v)) (JSONMembers f r4)
            else if c =? 0x7D then Parsed [(key, v)] r4
            else SyntaxError
          | [] => SyntaxError
          end
        | SyntaxError => SyntaxError
        | OutOfFuel => OutOfFuel
        end
      end
    end.
Proof. reflexivity. Qed.

Lemma JSONElements_step (f : nat) (s : jsstring) :
  JSONElements (S f) s
  = match JSONValue f s with
    | Parsed v r =>
      match skipWhiteSpace r with
      | c :: r' =>
        if c =? 0x2C then mapOutcome (cons v) (JSONElements f r')
        else if c =? 0x5D then Parsed [v] r'
        else SyntaxError
      | [] => SyntaxError
      end
    | SyntaxError => SyntaxError
    | OutOfFuel => OutOfFuel
    end.
Proof. reflexivity. Qed.

(** A quoted string is a JSON value and is read back as the string. *)
Lemma JSONValue_QuoteJSONString (fuel : nat) (s rest : jsstring) :
  (1 ≤ fuel)%nat →
  JSONValue fuel (QuoteJSONString s ++ rest) = Parsed (JString s) rest.
Proof.
  intros Hf. destruct fuel as [|f]; [lia|].
  unfold QuoteJSONString. text_norm.
  by rewrite JSONValue_quote, JSONStringCharacters_quoteUnits.
Qed.

Lemma JSONMembers_member (f : nat) (k v t : jsstring) :
  (1 ≤ f)%nat →
  JSONMembers (S f) (member_line (member_text (k, v)) ++ t)
  = match skipWhiteSpace t with
    | c :: r4 =>
      if c =? 0x2C then mapOutcome (cons (k, JString v)) (JSONMembers f r4)
      else if c =? 0x7D then Parsed [(k, JString v)] r4
      else SyntaxError
    | [] => SyntaxError
    end.
Proof.
  intros Hf. unfold member_line, member_text. cbn [fst snd].
  unfold QuoteJSONString at 1.
  text_norm. rewrite JSONMembers_quote, JSONStringCharacters_quoteUnits.
  rewrite skipWhiteSpace_cons by done.
  cbn [accept]. change (0x3A =? 0x3A) with true. cbv iota.
  change (0x22 :: quoteUnits v ++ 0x22 :: t) with (QuoteJSONString v ++ t).
  by rewrite JSONValue_QuoteJSONString.
Qed.

Lemma JSONMembers_strings (kvs : list (jsstring * jsstring)) (fuel : nat)
    (rest : jsstring) :
  kvs ≠ [] →
  (length kvs < fuel)%nat →
  JSONMembers fuel
    (join [0x2C] (member_line <$> (member_text <$> kvs)) ++ 0x7D :: rest)
  = Parsed (member_value <$> kvs) rest.
Proof.
  revert fuel. induction kvs as [|[k v] kvs IH]; intros fuel Hne Hf; [done|].
  destruct fuel as [|f]; [lia|]. simpl in Hf.
  destruct kvs as [|kv kvs].
  - cbn [fmap list_fmap join]. rewrite JSONMembers_member by lia.
    by rewrite skipWhiteSpace_cons.
  - change (join [0x2C] (member_line <$> (member_text <$> (k, v) :: kv :: kvs)))
      with (member_line (member_text (k, v)) ++ [0x2C]
            ++ join [0x2C] (member_line <$> (member_text <$> kv :: kvs))).
    rewrite <- !app_assoc. rewrite JSONMembers_member by (simpl in Hf; lia).
    text_norm. rewrite skipWhiteSpace_cons by done.
    change (0x2C =? 0x2C) with true. cbv iota.
    rewrite IH; [done|done|simpl in *; lia].
Qed.

Lemma join_members_head (kvs : list (jsstring * jsstring)) :
  kvs ≠ [] →
  ∃ t, join [0x2C] (member_line <$> (member_text <$> kvs)) = 0x22 :: t.
Proof.
  destruct kvs as [|kv [|kv' kvs]]; [done| |]; intros _; by eexists.
Qed.

(** An object of string-valued properties, as serialised, is read back
    as that object. *)
Lemma JSONValue_object_strings (kvs : list (jsstring * jsstring)) (fuel : nat)
    (rest : jsstring) :
  kvs ≠ [] →
  (length kvs + 1 < fuel)%nat →
  JSONValue fuel (SerializeJSONObject (member_text <$> kvs) ++ rest)
  = Parsed (JObject (member_value <$> kvs)) rest.
Proof.
  intros Hne Hf. destruct fuel as [|f]; [lia|].
  unfold SerializeJSONObject. text_norm. rewrite JSONValue_brace.
  destruct (join_members_head kvs Hne) as [t Et].
  assert (Hacc : accept 0x7D (skipWhiteSpace
                   (join [0x2C] (member_line <$> (member_text <$> kvs)) ++ 0x7D :: rest))
                 = None) by by rewrite Et.
  rewrite Hacc, JSONMembers_strings; [done|done|lia].
Qed.

End JSONRoundTrip.

(** ** Subsequences selected by a predicate *)

Section Selects.
Context {A : Type} (P : A → Prop) `{!∀ x, Decision (P x)}.

Lemma selects_filter (l : list A) : selects P l (filter P l).
Proof.
  induction l as [|x l IH]; [constructor|].
  destruct (decide (P x)) as [Hx|Hx].
  - rewrite filter_cons_True by done. by constructor.
  - rewrite filter_cons_False by done. by constructor.
Qed.

Lemma selects_unique (l l1 l2 : list A) :
  selects P l l1 → selects P l l2 → l1 = l2.
Proof.
  intros H1. revert l2.
  induction H1 as [|x l l1 Hx Hl IH|x l l1 Hx Hl IH]; intros l2 H2;
    inversion H2; subst; try done; try (f_equal; by apply IH); by apply IH.
Qed.

Lemma selects_sublist (l l' : list A) : selects P l l' → l' `sublist_of` l.
Proof. induction 1; by constructor. Qed.

Lemma selects_elem_of (l l' : list A) (x : A) :
  selects P l l' → x ∈ l' ↔ x ∈ l ∧ P x.
Proof.
  induction 1 as [|y l l' Hy Hl IH|y l l' Hy Hl IH].
  - split; [by intros ?%elem_of_nil|by intros [?%elem_of_nil _]].
  - rewrite !elem_of_cons, IH. intuition (subst; auto).
  - rewrite elem_of_cons, IH. intuition (subst; auto; try contradiction).
Qed.

Lemma selects_all (l : list A) : (∀ x, x ∈ l → P x) → selects P l l.
Proof.
  induction l as [|x l IH]; intros Hall; constructor.
  - apply Hall, elem_of_cons. by left.
  - apply IH. intros y Hy. apply Hall, elem_of_cons. by right.
Qed.

End Selects.

Lemma selects_iff {A : Type} (P Q : A → Prop) (l l' : list A) :
  (∀ x, P x ↔ Q x) → selects P l l' → selects Q l l'.
Proof.
  intros HPQ. induction 1 as [|x l l' Hx Hl IH|x l l' Hx Hl IH].
  - constructor.
  - apply selects_keep; [by apply HPQ|done].
  - apply selects_drop; [by rewrite <- HPQ|done].
Qed.

(** ** The handlers *)

Lemma World_eta (w : World) :
  {| app := app w; localStorage := localStorage w |} = w.
Proof. by destruct w. Qed.

Lemma both_blank_false (title content : jsstring) :
  trim title ≠ [] ∨ trim content ≠ [] →
  bool_decide (trim title = []) && bool_decide (trim content = []) = false.
Proof.
  intros [H|H]; apply andb_false_iff; [left|right]; by apply bool_decide_eq_false.
Qed.

(** [notes.find] comes back empty exactly when no note carries the
    selected id. *)
Lemma selectedNote_None (s : AppState) :
  selectedNote s = None ↔
  ∀ i, selectedNoteId s = Some i → i ∉ note_id <$> notes s.
Proof.
  unfold selectedNote. destruct s as [ns q sel cr]; simpl.
  induction ns as [|n ns IH]; simpl.
  - split; [|done]. intros _ i _. apply not_elem_of_nil.
  - case_bool_decide as E.
    + split; [done|]. intros H. exfalso.
      apply (H (note_id n)); [done|]. apply elem_of_cons; by left.
    + rewrite IH. split; intros H i Hi.
      * intros [->|Hin]%elem_of_cons; [congruence|]. by apply (H i).
      * intros Hin. apply (H i Hi). apply elem_of_cons; by right.
Qed.

Lemma selectedNote_Some (s : AppState) (i : jsstring) :
  selectedNoteId s = Some i → i ∈ note_id <$> notes s → is_Some (selectedNote s).
Proof.
  intros Hsel Hin. destruct (selectedNote s) eqn:E; [by eexists|].
  exfalso. by eapply selectedNote_None.
Qed.




(** C2: with both staged fields blank after trimming, save only alerts:
    the component state and the stored snapshot are what they were, in
    create mode and in edit mode alike. *)
Theorem blank_save_rejected (w : World) (r : Readings) (title content : jsstring) :
  trim title = [] →
  trim content = [] →
  dispatch w (EditorSave title content r) = (w, [Alert cannotSaveEmpty]).
Proof.
  intros Ht Hc. unfold dispatch. simpl. unfold NoteEditor_handleSave.
  rewrite Ht, Hc. simpl. by rewrite World_eta.
Qed.

Lemma blank_save_rejected_witness :
  let w := {| app := {| notes := []; search := []; selectedNoteId := None;
                        isCreatingNew := true |};
              localStorage := ∅ |} in
  let r := {| Date_now := 0; Math_random_toString36 := js "0.1";
              Date_toISOString := λ _, [] |} in
  dispatch w (EditorSave (js "   ") [] r) = (w, [Alert cannotSaveEmpty]).
Proof.
  apply blank_save_rejected; reflexivity.
Defined.

(** C4 as the code has it: a save on a selected, existing note with
    something to save
    keeps the length of the collection; at every position a note with
    another id is the note that was there, and a note with the selected id
    keeps its id and [created], takes the trimmed staged title and content
    and gets [updated] set to the time read while it was mapped.  With
    ids pairwise distinct, every position but that of the selected note
    holds what it held.  The selection and the editor mode stay, and the
    result is persisted. *)
Theorem update_in_place (w : World) (r : Readings) (noteId title content : jsstring) :
  isCreatingNew (app w) = false →
  selectedNoteId (app w) = Some noteId →
  noteId ∈ note_id <$> notes (app w) →
  trim title ≠ [] ∨ trim content ≠ [] →
  let w' := (dispatch w (EditorSave title content r)).1 in
  length (notes (app w')) = length (notes (app w))
  ∧ (∀ (i : nat) (n : Note), notes (app w) !! i = Some n →
      ∃ n', notes (app w') !! i = Some n'
        ∧ note_id n' = note_id n
        ∧ note_created n' = note_created n
        ∧ if decide (note_id n = noteId)
          then note_title n' = trim title
               ∧ note_content n' = trim content
               ∧ note_updated n' = Some (Date_toISOString r i)
          else n' = n)
  ∧ (NoDup (note_id <$> notes (app w)) →
     ∀ (i j : nat) (n : Note), notes (app w) !! i = Some n → note_id n = noteId →
       j ≠ i → notes (app w') !! j = notes (app w) !! j)
  ∧ selectedNoteId (app w') = Some noteId
  ∧ isCreatingNew (app w') = false
  ∧ search (app w') = search (app w)
  ∧ localStorage w' !! notesKey = Some (stringify_notes (notes (app w'))).
Proof.
  intros Hmode Hsel Hin Hfields.
  destruct (selectedNote_Some _ _ Hsel Hin) as [sn Hsn].
  unfold dispatch. simpl. unfold NoteEditor_handleSave.
  rewrite (both_blank_false _ _ Hfields). unfold handleSaveNote.
  rewrite Hmode, Hsn. simpl.
  split; [apply length_imap|].
  split; [|split; [|by rewrite lookup_insert_eq]].
  - intros i n Hi. rewrite list_lookup_imap, Hi. simpl.
    rewrite Hsel.
    destruct (decide (note_id n = noteId)) as [E|E].
    + rewrite decide_True by congruence. eexists. split; [done|]. by simpl.
    + rewrite decide_False by congruence. by eexists.
  - intros Hnodup i j n Hi Hn Hij. rewrite list_lookup_imap.
    destruct (notes (app w) !! j) as [m|] eqn:Hj; [|done]. simpl.
    rewrite Hsel, decide_False; [done|]. intros [= Hm]. apply Hij.
    apply (NoDup_lookup _ j i noteId Hnodup); rewrite list_lookup_fmap.
    + by rewrite Hj, <- Hm.
    + by rewrite Hi, <- Hn.
Qed.

Lemma update_in_place_witness :
  let n := {| note_id := js "a1"; note_title := js "Groceries";
              note_content := js "milk, eggs";
              note_created := js "2024-05-29T16:26:40.123Z";
              note_updated := None |} in
  let m := {| note_id := js "b2"; note_title := js "Other"; note_content := [];
              note_created := js "2024-05-28T10:00:00.000Z";
              note_updated := None |} in
  let w := {| app := {| notes := [m; n]; search := [];
                        selectedNoteId := Some (js "a1"); isCreatingNew := false |};
              localStorage := ∅ |} in
  let r := {| Date_now := 1717000100000; Math_random_toString36 := js "0.zz";
              Date_toISOString := λ _, js "2024-05-29T16:28:20.000Z" |} in
  let w' := (dispatch w (EditorSave (js "Groceries") (js "milk, eggs, bread ") r)).1 in
  length (notes (app w')) = length (notes (app w))
  ∧ (∀ (i : nat) (n0 : Note), notes (app w) !! i = Some n0 →
      ∃ n', notes (app w') !! i = Some n'
        ∧ note_id n' = note_id n0
        ∧ note_created n' = note_created n0
        ∧ if decide (note_id n0 = js "a1")
          then note_title n' = trim (js "Groceries")
               ∧ note_content n' = trim (js "milk, eggs, bread ")
               ∧ note_updated n' = Some (Date_toISOString r i)
          else n' = n0)
  ∧ (NoDup (note_id <$> notes (app w)) →
     ∀ (i j : nat) (n0 : Note), notes (app w) !! i = Some n0 → note_id n0 = js "a1" →
       j ≠ i → notes (app w') !! j = notes (app w) !! j)
  ∧ selectedNoteId (app w') = Some (js "a1")
  ∧ isCreatingNew (app w') = false
  ∧ search (app w') = search (app w)
  ∧ localStorage w' !! notesKey = Some (stringify_notes (notes (app w'))).
Proof.
  apply (update_in_place
           {| app := {| notes := [_; _]; search := [];
                        selectedNoteId := Some (js "a1"); isCreatingNew := false |};
              localStorage := ∅ |}).
  - reflexivity.
  - reflexivity.
  - vm_compute. apply list_elem_of_further, list_elem_of_here.
  - left. vm_compute. discriminate.
Defined.

(** C4, the stated frame: in the state reached by creating two notes
    from colliding readings, both carry the selected id, and one save
    rewrites the title of both, the selected one and the other. *)
Lemma update_rewrites_both_twins :
  let s := {| notes := [secondTwin; firstTwin]; search := [];
              selectedNoteId := Some (note_id secondTwin); isCreatingNew := false |} in
  let w' := (dispatch {| app := s; localStorage := ∅ |}
               (EditorSave (js "edited") [] laterReadings)).1 in
  run toLowerCase_ascii (initialState []) twinEvents = Some s
  ∧ rendered toLowerCase_ascii s (EditorSave (js "edited") [] laterReadings) = true
  ∧ selectedNote s = Some secondTwin
  ∧ notes s !! 1%nat = Some firstTwin
  ∧ note_title firstTwin ≠ note_title secondTwin
  ∧ note_title <$> notes (app w') = [js "edited"; js "edited"]
  ∧ notes (app w') !! 1%nat ≠ notes s !! 1%nat.
Proof.
  vm_compute. repeat split; discriminate.
Qed.






(** C10: outside create mode, when no note carries the selected id,
    [handleSaveNote] makes no call at all; whatever is staged, save leaves
    the state and the stored snapshot as they were, writes nothing, and
    with something to save its trace is empty. *)
Theorem save_without_target (w : World) (r : Readings) (title content : jsstring) :
  isCreatingNew (app w) = false →
  (∀ i, selectedNoteId (app w) = Some i → i ∉ note_id <$> notes (app w)) →
  (∀ edited : Edited, handleSaveNote (app w) r edited = [])
  ∧ (dispatch w (EditorSave title content r)).1 = w
  ∧ existsb isSetItem (dispatch w (EditorSave title content r)).2 = false
  ∧ (trim title ≠ [] ∨ trim content ≠ [] →
     dispatch w (EditorSave title content r) = (w, [])).
Proof.
  intros Hmode Habsent. apply selectedNote_None in Habsent.
  assert (Hsave : ∀ edited : Edited, handleSaveNote (app w) r edited = []).
  { intros edited. unfold handleSaveNote. by rewrite Hmode, Habsent. }
  split; [done|].
  unfold dispatch. simpl. unfold NoteEditor_handleSave.
  destruct (bool_decide (trim title = []) && bool_decide (trim content = [])) eqn:E.
  - simpl. rewrite World_eta. repeat split; try done.
    intros H. by rewrite (both_blank_false _ _ H) in E.
  - rewrite Hsave. simpl. by rewrite World_eta.
Qed.

Lemma save_without_target_witness :
  let w := {| app := {| notes := []; search := []; selectedNoteId := Some (js "gone");
                        isCreatingNew := false |};
              localStorage := ∅ |} in
  let r := {| Date_now := 0; Math_random_toString36 := js "0.1";
              Date_toISOString := λ _, [] |} in
  (∀ edited : Edited, handleSaveNote (app w) r edited = [])
  ∧ (dispatch w (EditorSave (js "t") (js "c") r)).1 = w
  ∧ existsb isSetItem (dispatch w (EditorSave (js "t") (js "c") r)).2 = false
  ∧ (trim (js "t") ≠ [] ∨ trim (js "c") ≠ [] →
     dispatch w (EditorSave (js "t") (js "c") r) = (w, [])).
Proof.
  apply (save_without_target
           {| app := {| notes := []; search := []; selectedNoteId := Some (js "gone");
                        isCreatingNew := false |};
              localStorage := ∅ |}).
  - reflexivity.
  - intros i _. simpl. apply not_elem_of_nil.
Defined.

(** ** The selection invariant *)

Lemma note_id_imap_edit (ns : list Note) (sel : option jsstring)
    (edited : Edited) (stamp : nat → jsstring) :
  note_id <$> imap (λ i n, if decide (Some (note_id n) = sel)
                           then withEdit n edited (stamp i) else n) ns
  = note_id <$> ns.
Proof.
  rewrite fmap_imap. revert stamp.
  induction ns as [|n ns IH]; intros stamp; [done|].
  simpl. f_equal.
  - by destruct (decide _).
  - apply (IH (stamp ∘ S)).
Qed.

Section Invariant.
Variable toLowerCase : jsstring → jsstring.

Lemma filteredNotes_ids (s : AppState) (i : jsstring) :
  i ∈ note_id <$> filteredNotes toLowerCase s → i ∈ note_id <$> notes s.
Proof.
  intros (n & -> & Hn)%list_elem_of_fmap. apply list_elem_of_fmap_2.
  unfold filteredNotes, filter_notes in Hn.
  by apply list_elem_of_filter in Hn as [_ ?].
Qed.

Lemma handler_preserves (s : AppState) (ev : Event) :
  selection_ok s →
  rendered toLowerCase s ev = true →
  selection_ok (commit s (handler s ev)).
Proof.
  intros [Hex Hin] Hr. destruct ev as [q| |i|i [|]|t c r|]; simpl in *.
  - done.
  - split; [intros [_ ?]; done|done].
  - apply bool_decide_eq_true in Hr. split; [intros [? _]; done|].
    intros j [= <-]. by apply filteredNotes_ids.
  - destruct (decide (selectedNoteId s = Some i)) as [E|E]; simpl.
    + split; [intros [? _]; done|done].
    + split; [intros [? _]; done|].
      intros j Hj. simpl in Hj. pose proof (Hin _ Hj) as Hj'.
      apply list_elem_of_fmap in Hj' as (n & -> & Hn).
      apply list_elem_of_fmap_2, list_elem_of_filter. split; [congruence|done].
  - done.
  - unfold NoteEditor_handleSave.
    destruct (bool_decide (trim t = []) && bool_decide (trim c = [])); [done|].
    unfold handleSaveNote. destruct (isCreatingNew s) eqn:Hc; simpl.
    + split; [intros [? _]; done|]. intros j [= <-]. apply elem_of_cons. by left.
    + destruct (selectedNote s); simpl; [|done].
      split; [by rewrite Hc; intros [? _]|].
      intros j Hj. simpl in *. rewrite note_id_imap_edit. by apply Hin.
  - split; [intros [? _]; done|done].
Qed.

Lemma run_preserves (evs : list Event) (s s' : AppState) :
  selection_ok s → run toLowerCase s evs = Some s' → selection_ok s'.
Proof.
  revert s. induction evs as [|ev evs IH]; intros s Hs; simpl.
  - by intros [= <-].
  - destruct (rendered toLowerCase s ev) eqn:Hr; [|done].
    apply IH. by apply handler_preserves.
Qed.

(** C9: in every state reached from a freshly mounted collection by
    events on rendered controls, the creating-new flag and a selected id
    are never set together, and a selected id is the id of a note in the
    collection. *)
Theorem selection_invariant (ns : list Note) (evs : list Event) (s : AppState) :
  run toLowerCase (initialState ns) evs = Some s →
  ¬ (isCreatingNew s = true ∧ selectedNoteId s ≠ None)
  ∧ ∀ i, selectedNoteId s = Some i → i ∈ note_id <$> notes s.
Proof.
  apply run_preserves. split; [intros [? _]; done|done].
Qed.

End Invariant.

Lemma selection_invariant_witness :
  let n := {| note_id := js "a1"; note_title := js "Groceries";
              note_content := js "milk, eggs";
              note_created := js "2024-05-29T16:26:40.123Z";
              note_updated := None |} in
  let r := {| Date_now := 1717000100000; Math_random_toString36 := js "0.zzk3";
              Date_toISOString := λ _, js "2024-05-29T16:28:20.000Z" |} in
  let s := {| notes := [{| note_id := js "1717000100000zzk3";
                           note_title := js "New"; note_content := [];
                           note_created := js "2024-05-29T16:28:20.000Z";
                           note_updated := None |}];
              search := js "e"; selectedNoteId := None; isCreatingNew := true |} in
  ¬ (isCreatingNew s = true ∧ selectedNoteId s ≠ None)
  ∧ ∀ i, selectedNoteId s = Some i → i ∈ note_id <$> notes s.
Proof.
  apply (selection_invariant toLowerCase_ascii
           [{| note_id := js "a1"; note_title := js "Groceries";
               note_content := js "milk, eggs";
               note_created := js "2024-05-29T16:26:40.123Z";
               note_updated := None |}]
           [SearchChange (js "GROC"); SelectNote (js "a1"); CreateNoteClick;
            EditorSave (js " New") [] {| Date_now := 1717000100000;
                                         Math_random_toString36 := js "0.zzk3";
                                         Date_toISOString :=
                                           λ _, js "2024-05-29T16:28:20.000Z" |};
            SearchChange (js "e"); DeleteNote (js "a1") true; CreateNoteClick]).
  vm_compute. reflexivity.
Defined.

(** ** Search *)

Section Search.
Variable toLowerCase : jsstring → jsstring.
Hypothesis toLowerCase_nil : toLowerCase [] = [].

Lemma matchesSearch_spec (query : jsstring) (note : Note) :
  matchesSearch toLowerCase query note = true ↔
  substring (toLowerCase query)
            (toLowerCase (note_title note ++ js " " ++ note_content note)).
Proof. apply includes_spec. Qed.

(** C3: the filtered list is the collection with exactly those notes
    kept, in order, whose lowercased [title + " " + content] contains the
    lowercased query; it is a subsequence of the collection, and for the
    empty query it is the collection itself. *)
Theorem filter_selects_matches (collection : list Note) (query : jsstring) :
  selects (λ note, substring (toLowerCase query)
                     (toLowerCase (note_title note ++ js " " ++ note_content note)))
          collection (filter_notes toLowerCase collection query)
  ∧ filter_notes toLowerCase collection query `sublist_of` collection
  ∧ filter_notes toLowerCase collection [] = collection.
Proof.
  split; [|split].
  - eapply selects_iff; [apply matchesSearch_spec|]. apply selects_filter.
  - apply sublist_filter.
  - eapply selects_unique; [apply selects_filter|].
    apply selects_all. intros note _. unfold matchesSearch.
    rewrite toLowerCase_nil. apply includes_nil.
Qed.

End Search.

Lemma filter_selects_matches_witness :
  let a := {| note_id := js "a1"; note_title := js "Groceries";
              note_content := js "milk, eggs";
              note_created := js "2024-05-29T16:26:40.123Z"; note_updated := None |} in
  let b := {| note_id := js "b2"; note_title := js "Call Sam"; note_content := [];
              note_created := js "2024-05-28T10:00:00.000Z"; note_updated := None |} in
  selects (λ note, substring (toLowerCase_ascii (js "CERIES M"))
                     (toLowerCase_ascii
                        (note_title note ++ js " " ++ note_content note)))
          [b; a] (filter_notes toLowerCase_ascii [b; a] (js "CERIES M"))
  ∧ filter_notes toLowerCase_ascii [b; a] (js "CERIES M") `sublist_of` [b; a]
  ∧ filter_notes toLowerCase_ascii [b; a] [] = [b; a].
Proof.
  apply (filter_selects_matches toLowerCase_ascii). reflexivity.
Defined.

(** ** Identifiers *)

(** C8 as the code has it: two calls whose clock readings print with
    the same number of digits return the same id exactly when they read
    the same millisecond and the same characters 2 to 9 of the random
    number's base-36 text; otherwise the ids differ. *)
Theorem generateId_eq_iff (r1 r2 : Readings) :
  length (Number_toString (Date_now r1)) = length (Number_toString (Date_now r2)) →
  generateId r1 = generateId r2 ↔
  Date_now r1 = Date_now r2
  ∧ substr (Math_random_toString36 r1) 2 8 = substr (Math_random_toString36 r2) 2 8.
Proof.
  intros Hlen. unfold generateId. split.
  - intros H. apply app_inj_1 in H as [Hnow Hrand]; [|done].
    split; [by apply Number_toString_inj|done].
  - by intros [-> ->].
Qed.

Lemma generateId_eq_iff_witness :
  let r1 := {| Date_now := 1717000000123; Math_random_toString36 := js "0.4fzyo82mv";
               Date_toISOString := λ _, js "2024-05-29T16:26:40.123Z" |} in
  let r2 := {| Date_now := 1717000000124; Math_random_toString36 := js "0.4fzyo82mv";
               Date_toISOString := λ _, js "2024-05-29T16:26:40.124Z" |} in
  generateId r1 = generateId r2 ↔
  Date_now r1 = Date_now r2
  ∧ substr (Math_random_toString36 r1) 2 8 = substr (Math_random_toString36 r2) 2 8.
Proof.
  apply (generateId_eq_iff
           {| Date_now := 1717000000123; Math_random_toString36 := js "0.4fzyo82mv";
              Date_toISOString := λ _, js "2024-05-29T16:26:40.123Z" |}
           {| Date_now := 1717000000124; Math_random_toString36 := js "0.4fzyo82mv";
              Date_toISOString := λ _, js "2024-05-29T16:26:40.124Z" |}).
  reflexivity.
Defined.

(** C8, the stated freedom from collisions: two calls in the same
    millisecond whose random numbers differ only after the eighth
    base-36 digit return the same id, and two notes created from them
    share it. *)
Lemma generateId_collision :
  let r1 := {| Date_now := 1717000000123; Math_random_toString36 := js "0.4fzyo82mv";
               Date_toISOString := λ _, js "2024-05-29T16:26:40.123Z" |} in
  let r2 := {| Date_now := 1717000000123; Math_random_toString36 := js "0.4fzyo82mw";
               Date_toISOString := λ _, js "2024-05-29T16:26:40.123Z" |} in
  let w0 := {| app := {| notes := []; search := []; selectedNoteId := None;
                         isCreatingNew := true |};
               localStorage := ∅ |} in
  let w1 := (dispatch w0 (EditorSave (js "first") [] r1)).1 in
  let w2 := (dispatch w1 CreateNoteClick).1 in
  let w3 := (dispatch w2 (EditorSave (js "second") [] r2)).1 in
  Math_random_toString36 r1 ≠ Math_random_toString36 r2
  ∧ generateId r1 = generateId r2
  ∧ note_id <$> notes (app w3) = [generateId r2; generateId r1].
Proof.
  vm_compute. repeat split. discriminate.
Qed.

(** ** The persisted snapshot *)

Section Snapshot.
Import JSON JSONRoundTrip.

Lemma note_fields_length (n : Note) :
  note_fields n ≠ [] ∧ (length (note_fields n) ≤ 5)%nat.
Proof. unfold note_fields. destruct (note_updated n); simpl; split; (done || lia). Qed.

Lemma JSONValue_stringify_note (n : Note) (fuel : nat) (rest : jsstring) :
  (7 ≤ fuel)%nat →
  JSONValue fuel (stringify_note n ++ rest) = Parsed (note_object n) rest.
Proof.
  intros Hf. destruct (note_fields_length n) as [Hne Hlen].
  apply JSONValue_object_strings; [done|lia].
Qed.

Lemma stringify_note_head (n : Note) :
  ∃ t, stringify_note n = 0x7B :: 0x22 :: 0x69 :: 0x64 :: t.
Proof. by eexists. Qed.

Lemma join_notes_head (ns : list Note) :
  ns ≠ [] → ∃ t, join [0x2C] (stringify_note <$> ns) = 0x7B :: t.
Proof.
  destruct ns as [|n [|n' ns]]; [done| |]; intros _; by eexists.
Qed.

Lemma join_notes_length (ns : list Note) :
  (4 * length ns ≤ length (join [0x2C%N] (stringify_note <$> ns)))%nat.
Proof.
  induction ns as [|n ns IH]; [done|].
  destruct (stringify_note_head n) as [t Et].
  destruct ns as [|n' ns].
  - cbn [fmap list_fmap join]. rewrite Et. simpl. lia.
  - change (join [0x2C] (stringify_note <$> n :: n' :: ns))
      with (stringify_note n ++ [0x2C] ++ join [0x2C] (stringify_note <$> n' :: ns)).
    rewrite !length_app, Et. simpl in *. lia.
Qed.

(** The elements of a serialised array of notes are read back as the
    note objects. *)
Lemma JSONElements_notes (ns : list Note) (fuel : nat) (rest : jsstring) :
  ns ≠ [] →
  (length ns + 7 ≤ fuel)%nat →
  JSONElements fuel (join [0x2C] (stringify_note <$> ns) ++ 0x5D :: rest)
  = Parsed (note_object <$> ns) rest.
Proof.
  revert fuel. induction ns as [|n ns IH]; intros fuel Hne Hf; [done|].
  destruct fuel as [|f]; [simpl in Hf; lia|]. simpl in Hf.
  rewrite JSONElements_step. destruct ns as [|n' ns].
  - cbn [fmap list_fmap join]. rewrite JSONValue_stringify_note by lia.
    by rewrite skipWhiteSpace_cons.
  - change (join [0x2C] (stringify_note <$> n :: n' :: ns))
      with (stringify_note n ++ [0x2C] ++ join [0x2C] (stringify_note <$> n' :: ns)).
    rewrite <- !app_assoc, JSONValue_stringify_note by lia.
    text_norm. rewrite skipWhiteSpace_cons by done.
    change (0x2C =? 0x2C) with true. cbv iota.
    rewrite IH; [done|done|simpl in *; lia].
Qed.

(** [JSON.parse] reads a serialised collection back as the array of its
    note objects. *)
Lemma parse_stringify_notes (ns : list Note) :
  parse (stringify_notes ns) = Some (notes_array ns).
Proof.
  unfold parse.
  assert (H : JSONValue (2 * length (stringify_notes ns) + 1) (stringify_notes ns)
              = Parsed (notes_array ns) []).
  { destruct ns as [|n ns]; [done|].
    pose proof (join_notes_length (n :: ns)) as Hlen.
    destruct (join_notes_head (n :: ns)) as [t Et]; [done|].
    unfold stringify_notes, SerializeJSONArray in *.
    rewrite !length_app. cbn [length].
    destruct (2 * (1 + (length (join [0x2C%N] (stringify_note <$> n :: ns)) + 1)) + 1)%nat
      as [|f] eqn:Ef; [lia|].
    text_norm. rewrite JSONValue_bracket.
    assert (Hacc : accept 0x5D (skipWhiteSpace
                     (join [0x2C] (stringify_note <$> n :: ns) ++ [0x5D])) = None)
      by by rewrite Et.
    rewrite Hacc, JSONElements_notes; [done|done|]. simpl in *. lia. }
  by rewrite H.
Qed.

Lemma note_of_json_object (n : Note) : note_of_json (note_object n) = Some n.
Proof. destruct n as [i t c cr [u|]]; reflexivity. Qed.

Lemma notes_of_json_array (ns : list Note) : notes_of_json (notes_array ns) = Some ns.
Proof.
  unfold notes_of_json, notes_array. apply mapM_Some_2.
  induction ns as [|n ns IH]; constructor; [apply note_of_json_object|done].
Qed.

Lemma stringify_notes_nonempty (ns : list Note) : stringify_notes ns ≠ [].
Proof. done. Qed.

(** Mounting with a non-empty text under the key. *)
Lemma mount_saved (storage : gmap jsstring jsstring) (text : jsstring) :
  storage !! notesKey = Some text →
  text ≠ [] →
  mount storage
  = match JSON.parse text with
    | None => UncaughtSyntaxError
    | Some v =>
      match notes_of_json v with
      | Some ns =>
        Running {| app := initialState ns;
                   localStorage := <[notesKey := stringify_notes ns]> storage |}
                [GetItem notesKey; SetItem notesKey (stringify_notes ns)]
      | None => OutsideDataModel v
      end
    end.
Proof. intros Hsaved Hne. unfold mount. rewrite Hsaved. by destruct text. Qed.

(** C7: the text [JSON.stringify] writes for a collection is parsed back
    by [JSON.parse] as the array of the same note objects, which denotes
    the same notes in the same order with the same [id], [title],
    [content], [created] and [updated]; mounting with that text stored
    starts from that collection. *)
Theorem snapshot_round_trip (ns : list Note) :
  JSON.parse (stringify_notes ns) = Some (notes_array ns)
  ∧ notes_of_json (notes_array ns) = Some ns
  ∧ ∀ storage : gmap jsstring jsstring,
      mount (<[notesKey := stringify_notes ns]> storage)
      = Running {| app := initialState ns;
                   localStorage := <[notesKey := stringify_notes ns]> storage |}
                [GetItem notesKey; SetItem notesKey (stringify_notes ns)].
Proof.
  split; [apply parse_stringify_notes|]. split; [apply notes_of_json_array|].
  intros storage.
  rewrite (mount_saved _ (stringify_notes ns));
    [|apply lookup_insert_eq|apply stringify_notes_nonempty].
  rewrite parse_stringify_notes, notes_of_json_array.
  by rewrite insert_insert_eq.
Qed.




End Snapshot.

(** * Further properties of the store *)

(** ** The snapshot follows the collection *)

Lemma dispatch_settle (w : World) (ev : Event) :
  dispatch w ev = settle w (handler (app w) ev).
Proof. reflexivity. Qed.

Lemma runWorld_cons (w : World) (ev : Event) (evs : list Event) :
  runWorld w (ev :: evs) = runWorld (dispatch w ev).1 evs.
Proof. reflexivity. Qed.

(** Without a call of [setNotes], the collection stays. *)
Lemma commit_notes (s : AppState) (calls : list Call) :
  existsb isSetNotes calls = false → notes (commit s calls) = notes s.
Proof.
  revert s. induction calls as [|c calls IH]; intros s; [done|].
  simpl. intros [Hc Hcalls]%orb_false_iff.
  unfold commit in IH. rewrite IH by done. by destruct c.
Qed.

Lemma settle_mirror (w : World) (calls : list Call) :
  localStorage w !! notesKey = Some (stringify_notes (notes (app w))) →
  localStorage (settle w calls).1 !! notesKey
  = Some (stringify_notes (notes (app (settle w calls).1))).
Proof.
  intros Hw. unfold settle. destruct (existsb isSetNotes calls) eqn:E; simpl.
  - apply lookup_insert_eq.
  - by rewrite commit_notes.
Qed.

Lemma settle_other_keys (w : World) (calls : list Call) (k : jsstring) :
  k ≠ notesKey → localStorage (settle w calls).1 !! k = localStorage w !! k.
Proof.
  intros Hk. unfold settle. destruct (existsb isSetNotes calls); simpl; [|done].
  by rewrite lookup_insert_ne.
Qed.

Lemma mount_Running (storage : gmap jsstring jsstring) (w : World) (trace : list Call) :
  mount storage = Running w trace →
  ∃ ns, w = {| app := initialState ns;
               localStorage := <[notesKey := stringify_notes ns]> storage |}.
Proof.
  unfold mount. destruct (storage !! notesKey) as [[|c text]|].
  - intros [= <- _]. by eexists.
  - destruct (JSON.parse (c :: text)) as [v|]; [|done].
    destruct (notes_of_json v) as [ns|]; [|done]. intros [= <- _]. by eexists.
  - intros [= <- _]. by eexists.
Qed.

Lemma runWorld_mirror (w : World) (evs : list Event) :
  localStorage w !! notesKey = Some (stringify_notes (notes (app w))) →
  localStorage (runWorld w evs) !! notesKey
  = Some (stringify_notes (notes (app (runWorld w evs)))).
Proof.
  revert w. induction evs as [|ev evs IH]; intros w Hw; [done|].
  rewrite runWorld_cons. apply IH. rewrite dispatch_settle. by apply settle_mirror.
Qed.

(** X1: once the component is mounted, whatever events follow, the text
    stored under the key is the serialisation of the collection as it is
    now. *)
Theorem storage_mirrors_notes (storage : gmap jsstring jsstring) (w0 : World)
    (trace : list Call) (evs : list Event) :
  mount storage = Running w0 trace →
  localStorage (runWorld w0 evs) !! notesKey
  = Some (stringify_notes (notes (app (runWorld w0 evs)))).
Proof.
  intros [ns ->]%mount_Running. apply runWorld_mirror. apply lookup_insert_eq.
Qed.

(** X2: reloading the page at any moment restores the collection as it
    was, with no search, no selection and no editor, and leaves the
    storage as it is. *)
Theorem reload_restores_notes (storage : gmap jsstring jsstring) (w0 : World)
    (trace : list Call) (evs : list Event) :
  mount storage = Running w0 trace →
  mount (localStorage (runWorld w0 evs))
  = Running {| app := initialState (notes (app (runWorld w0 evs)));
               localStorage := localStorage (runWorld w0 evs) |}
            [GetItem notesKey;
             SetItem notesKey (stringify_notes (notes (app (runWorld w0 evs))))].
Proof.
  intros [ns ->]%mount_Running.
  set (w := runWorld _ evs).
  assert (Hw : localStorage w !! notesKey = Some (stringify_notes (notes (app w)))).
  { apply runWorld_mirror. apply lookup_insert_eq. }
  rewrite (mount_saved _ _ Hw (stringify_notes_nonempty _)).
  rewrite parse_stringify_notes, notes_of_json_array.
  by rewrite (insert_id _ _ _ Hw).
Qed.

(** X3: mounting and the events that follow never touch another key of
    the storage. *)
Theorem other_keys_untouched (storage : gmap jsstring jsstring) (w0 : World)
    (trace : list Call) (evs : list Event) (k : jsstring) :
  mount storage = Running w0 trace →
  k ≠ notesKey →
  localStorage (runWorld w0 evs) !! k = storage !! k.
Proof.
  intros [ns ->]%mount_Running Hk.
  transitivity (localStorage {| app := initialState ns;
                                localStorage := <[notesKey := stringify_notes ns]> storage |} !! k).
  - generalize {| app := initialState ns;
                  localStorage := <[notesKey := stringify_notes ns]> storage |}.
    induction evs as [|ev evs IH]; intros w; [done|].
    rewrite runWorld_cons, IH, dispatch_settle. by apply settle_other_keys.
  - simpl. by rewrite lookup_insert_ne.
Qed.

Lemma storage_mirrors_notes_witness :
  let w := runWorld emptyWorld
             [CreateNoteClick; EditorSave (js " Groceries") (js "milk") sampleReadings;
              SearchChange (js "x"); DeleteNote (js "zz") true] in
  localStorage w !! notesKey = Some (stringify_notes (notes (app w))).
Proof.
  apply (storage_mirrors_notes ∅ emptyWorld
           [GetItem notesKey; SetItem notesKey (stringify_notes [])]).
  reflexivity.
Defined.

Lemma reload_restores_notes_witness :
  let w := runWorld emptyWorld
             [CreateNoteClick; EditorSave (js " Groceries") (js "milk") sampleReadings;
              SearchChange (js "x")] in
  mount (localStorage w)
  = Running {| app := initialState (notes (app w)); localStorage := localStorage w |}
            [GetItem notesKey; SetItem notesKey (stringify_notes (notes (app w)))].
Proof.
  apply (reload_restores_notes ∅ emptyWorld
           [GetItem notesKey; SetItem notesKey (stringify_notes [])]).
  reflexivity.
Defined.

Lemma other_keys_untouched_witness :
  let storage : gmap jsstring jsstring := <[js "theme" := js "dark"]> ∅ in
  let w0 := {| app := initialState [];
               localStorage := <[notesKey := stringify_notes []]> storage |} in
  localStorage (runWorld w0 [CreateNoteClick;
                             EditorSave (js "Groceries") [] sampleReadings])
    !! js "theme"
  = storage !! js "theme".
Proof.
  apply (other_keys_untouched (<[js "theme" := js "dark"]> ∅) _
           [GetItem notesKey; SetItem notesKey (stringify_notes [])]).
  - reflexivity.
  - vm_compute. discriminate.
Defined.

(** ** What each event may change *)

Lemma handler_setNotes (s : AppState) (ev : Event) :
  existsb isSetNotes (handler s ev) = mutating s ev.
Proof.
  destruct ev as [q| |i|i [|]|t c r|]; simpl; try done.
  unfold NoteEditor_handleSave, handleSaveNote.
  destruct (bool_decide (trim t = []) && bool_decide (trim c = [])); [done|].
  destruct (isCreatingNew s); [done|]. simpl.
  destruct (selectedNote s) eqn:E.
  - by rewrite bool_decide_eq_true_2.
  - rewrite bool_decide_eq_false_2; [done|]. by intros [? ?].
Qed.

Lemma handler_writes_nothing (s : AppState) (ev : Event) :
  existsb isSetItem (handler s ev) = false.
Proof.
  destruct ev as [q| |i|i [|]|t c r|]; simpl; try done.
  - by destruct (decide _).
  - unfold NoteEditor_handleSave, handleSaveNote.
    destruct (_ && _); [done|].
    destruct (isCreatingNew s); [done|]. by destruct (selectedNote s).
Qed.

Lemma snapshot_unchanged (w : World) (ev : Event) :
  mutating (app w) ev = false →
  notes (app (dispatch w ev).1) = notes (app w)
  ∧ localStorage (dispatch w ev).1 = localStorage w.
Proof.
  intros Hm. unfold dispatch. rewrite handler_setNotes, Hm. simpl.
  split; [|done]. apply commit_notes. by rewrite handler_setNotes.
Qed.

(** X4: the snapshot is written exactly by a confirmed delete and by a
    save that goes through, once, after the handler's own calls, with the
    serialisation of the new collection; every other event leaves the
    collection and the storage as they were. *)
Theorem snapshot_written_exactly_when (w : World) (ev : Event) :
  (dispatch w ev).2
  = handler (app w) ev
    ++ (if mutating (app w) ev
        then [SetItem notesKey (stringify_notes (notes (app (dispatch w ev).1)))]
        else [])
  ∧ existsb isSetItem (handler (app w) ev) = false
  ∧ (mutating (app w) ev = false →
     notes (app (dispatch w ev).1) = notes (app w)
     ∧ localStorage (dispatch w ev).1 = localStorage w).
Proof.
  split; [|split; [apply handler_writes_nothing|]].
  - unfold dispatch. rewrite handler_setNotes.
    destruct (mutating (app w) ev); simpl; [done|by rewrite app_nil_r].
  - apply snapshot_unchanged.
Qed.

(** No event rewrites the id or the creation stamp of a note. *)
Lemma identity_imap_edit (ns : list Note) (sel : option jsstring)
    (edited : Edited) (stamp : nat → jsstring) :
  (λ n, (note_id n, note_created n))
    <$> imap (λ i n, if decide (Some (note_id n) = sel)
                     then withEdit n edited (stamp i) else n) ns
  = (λ n, (note_id n, note_created n)) <$> ns.
Proof.
  rewrite fmap_imap. revert stamp.
  induction ns as [|n ns IH]; intros stamp; [done|].
  simpl. f_equal.
  - by destruct (decide _).
  - apply (IH (stamp ∘ S)).
Qed.

(** X5: an event either leaves the sequence of (id, created) pairs of
    the collection as it was, or removes some of them, or puts one new
    pair in front: the id and the creation stamp of a note that stays are
    never changed, and notes are never reordered. *)
Theorem ids_and_created_are_kept (w : World) (ev : Event) :
  let ident := λ n : Note, (note_id n, note_created n) in
  ident <$> notes (app (dispatch w ev).1) `sublist_of` ident <$> notes (app w)
  ∨ ∃ r, ident <$> notes (app (dispatch w ev).1)
         = (generateId r, Date_toISOString r 0) :: (ident <$> notes (app w)).
Proof.
  intros ident.
  destruct (mutating (app w) ev) eqn:Hm.
  - destruct ev as [q| |i|i a|t c r|]; try done.
    + left. simpl in Hm. subst a. unfold dispatch. simpl.
      destruct (decide _); simpl; apply fmap_sublist, sublist_filter.
    + unfold dispatch. simpl. unfold NoteEditor_handleSave, handleSaveNote.
      simpl in Hm. apply andb_true_iff in Hm as [Hblank Hmode].
      apply negb_true_iff in Hblank. rewrite Hblank.
      destruct (isCreatingNew (app w)) eqn:Hc; simpl.
      * right. by exists r.
      * left. simpl in Hmode. apply bool_decide_eq_true in Hmode as [n Hn].
        rewrite Hn. simpl. unfold ident. by rewrite identity_imap_edit.
  - left. destruct (snapshot_unchanged w ev Hm) as [-> _]. done.
Qed.

(** ** Invariants of the collection *)

(** X6: ids stay pairwise distinct under every event, provided a save in
    create mode generates an id that no note of the collection has. *)
Theorem distinct_ids_are_kept (w : World) (ev : Event) :
  NoDup (note_id <$> notes (app w)) →
  (∀ title content r, ev = EditorSave title content r →
     generateId r ∉ note_id <$> notes (app w)) →
  NoDup (note_id <$> notes (app (dispatch w ev).1)).
Proof.
  intros Hnodup Hfresh.
  destruct (mutating (app w) ev) eqn:Hm.
  - destruct ev as [q| |i|i a|t c r|]; try done.
    + simpl in Hm. subst a. unfold dispatch. simpl.
      destruct (decide _); simpl;
        (refine (sublist_NoDup _ _ Hnodup _); apply fmap_sublist, sublist_filter).
    + unfold dispatch. simpl. unfold NoteEditor_handleSave, handleSaveNote.
      simpl in Hm. apply andb_true_iff in Hm as [Hblank Hmode].
      apply negb_true_iff in Hblank. rewrite Hblank.
      destruct (isCreatingNew (app w)) eqn:Hc; simpl.
      * apply NoDup_cons. split; [by eapply Hfresh|done].
      * simpl in Hmode. apply bool_decide_eq_true in Hmode as [n Hn].
        rewrite Hn. simpl. by rewrite note_id_imap_edit.
  - by destruct (snapshot_unchanged w ev Hm) as [-> _].
Qed.

Lemma distinct_ids_are_kept_witness :
  let w := {| app := {| notes := [callSam; groceries]; search := [];
                        selectedNoteId := None; isCreatingNew := true |};
              localStorage := ∅ |} in
  NoDup (note_id <$> notes (app (dispatch w (EditorSave (js "New") []
                                                 sampleReadings)).1)).
Proof.
  apply (distinct_ids_are_kept
           {| app := {| notes := [callSam; groceries]; search := [];
                        selectedNoteId := None; isCreatingNew := true |};
              localStorage := ∅ |}).
  - vm_compute. repeat constructor; intros H;
      repeat (apply elem_of_cons in H as [H|H]; [discriminate|]);
      by apply elem_of_nil in H.
  - intros title content r [= _ _ <-]. vm_compute. intros H.
    repeat (apply elem_of_cons in H as [H|H]; [discriminate|]).
    by apply elem_of_nil in H.
Defined.

Lemma Forall_filter_keep {A : Type} (P Q : A → Prop) `{!∀ x, Decision (Q x)}
    (l : list A) :
  Forall P l → Forall P (filter Q l).
Proof.
  rewrite !Forall_forall. intros Hl x [_ Hx]%list_elem_of_filter. by apply Hl.
Qed.

Lemma trimStart_fixed (s : jsstring) :
  (∀ c r, s = c :: r → isWhiteSpace c = false) → trimStart s = s.
Proof.
  destruct s as [|c s]; [done|]. intros H. simpl. by rewrite (H c s).
Qed.

(** Trimming a trimmed string changes nothing. *)
Lemma trim_idempotent (s : jsstring) : trim (trim s) = trim s.
Proof.
  destruct (trim_spec s) as (front & back & _ & _ & _ & Hhd & Hlast).
  unfold trim at 1. rewrite (trimStart_fixed (trim s) Hhd).
  unfold trimEnd. rewrite trimStart_fixed; [apply reverse_involutive|].
  intros c r Hc. apply (Hlast c (reverse r)).
  apply (inj reverse). by rewrite Hc, reverse_app, reverse_involutive.
Qed.

Lemma well_kept_edit (s : AppState) (r : Readings) (title content : jsstring) :
  Forall well_kept (notes s) →
  Forall well_kept (notes (commit s (NoteEditor_handleSave s r title content))).
Proof.
  intros Hs. unfold NoteEditor_handleSave.
  destruct (bool_decide (trim title = []) && bool_decide (trim content = [])) eqn:E;
    [done|].
  assert (Hnew : ∀ n, well_kept {| note_id := note_id n; note_title := trim title;
                                   note_content := trim content;
                                   note_created := note_created n;
                                   note_updated := note_updated n |}).
  { intros n. repeat split; simpl; try apply trim_idempotent.
    apply andb_false_iff in E as [E|E]; apply bool_decide_eq_false in E; auto. }
  unfold handleSaveNote. destruct (isCreatingNew s); simpl.
  - constructor; [|done]. apply (Hnew {| note_id := generateId r; note_title := [];
                                         note_content := [];
                                         note_created := Date_toISOString r 0;
                                         note_updated := None |}).
  - destruct (selectedNote s) as [sel|]; simpl; [|done].
    apply Forall_lookup. intros i x. rewrite list_lookup_imap.
    destruct (notes s !! i) as [m|] eqn:Hm; [|done]. simpl. intros [= <-].
    destruct (decide _); [|by eapply Forall_lookup_1].
    apply (Hnew {| note_id := note_id m; note_title := []; note_content := [];
                   note_created := note_created m;
                   note_updated := Some (Date_toISOString r i) |}).
Qed.

(** X7: if every note of the collection has something in it and has
    both fields trimmed, the same is true after any sequence of events:
    the editor never stores an empty note or untrimmed text. *)
Theorem notes_stay_well_kept (w : World) (evs : list Event) :
  Forall well_kept (notes (app w)) →
  Forall well_kept (notes (app (runWorld w evs))).
Proof.
  revert w. induction evs as [|ev evs IH]; intros w Hw; [done|].
  rewrite runWorld_cons. apply IH.
  destruct (mutating (app w) ev) eqn:Hm.
  - destruct ev as [q| |i|i a|t c r|]; try done.
    + simpl in Hm. subst a. unfold dispatch. simpl.
      destruct (decide _); simpl; by apply Forall_filter_keep.
    + pose proof (well_kept_edit (app w) r t c Hw) as H.
      unfold dispatch. simpl handler.
      by destruct (existsb isSetNotes _).
  - by destruct (snapshot_unchanged w ev Hm) as [-> _].
Qed.

Lemma notes_stay_well_kept_witness :
  Forall well_kept
    (notes (app (runWorld emptyWorld
                   [CreateNoteClick;
                    EditorSave (js "  Groceries ") (js " milk, eggs") sampleReadings;
                    EditorSave (js "Groceries") (js "milk, eggs, bread  ") laterReadings;
                    CreateNoteClick; EditorSave (js " ") (js " ") laterReadings]))).
Proof.
  apply (notes_stay_well_kept emptyWorld). apply Forall_nil_2.
Defined.

(** ** The visible list *)

Section VisibleList.
Variable toLowerCase : jsstring → jsstring.

Lemma filter_notes_cons (n : Note) (ns : list Note) (query : jsstring) :
  filter_notes toLowerCase (n :: ns) query
  = (if matchesSearch toLowerCase query n then [n] else [])
    ++ filter_notes toLowerCase ns query.
Proof.
  unfold filter_notes. destruct (matchesSearch toLowerCase query n) eqn:E.
  - by rewrite filter_cons_True.
  - rewrite filter_cons_False; [done|]. by rewrite E.
Qed.

Lemma filter_notes_without (ns : list Note) (noteId query : jsstring) :
  filter_notes toLowerCase (filter (λ n, note_id n ≠ noteId) ns) query
  = filter (λ n, note_id n ≠ noteId) (filter_notes toLowerCase ns query).
Proof.
  unfold filter_notes. rewrite !list_filter_filter.
  apply list_filter_iff. intros n. tauto.
Qed.

(** X8: after a confirmed delete the visible list is the list that was
    visible without the items of that id, the others in place; and
    whatever is searched for afterwards, no item of that id is shown. *)
Theorem delete_removes_from_visible_list (w : World) (noteId : jsstring) :
  let w' := (dispatch w (DeleteNote noteId true)).1 in
  filteredNotes toLowerCase (app w')
  = filter (λ n, note_id n ≠ noteId) (filteredNotes toLowerCase (app w))
  ∧ ∀ query, noteId ∉ note_id <$> filter_notes toLowerCase (notes (app w')) query.
Proof.
  assert (Hnotes : notes (app (dispatch w (DeleteNote noteId true)).1)
                   = filter (λ n, note_id n ≠ noteId) (notes (app w))
                   ∧ search (app (dispatch w (DeleteNote noteId true)).1)
                     = search (app w)).
  { unfold dispatch. simpl. by destruct (decide _). }
  destruct Hnotes as [Hnotes Hsearch]. cbv zeta. split.
  - unfold filteredNotes. rewrite Hnotes, Hsearch. apply filter_notes_without.
  - intros query. rewrite Hnotes, filter_notes_without.
    intros (n & Hid & Hn)%list_elem_of_fmap.
    apply list_elem_of_filter in Hn as [Hne _]. by apply Hne.
Qed.

(** X9: a note saved in create mode becomes the selected note, and it is
    put in front of the visible list only if it matches the search that
    is active: otherwise the list stays as it was and the new note, though
    open in the editor, is not shown in it. *)
Theorem created_note_and_search (w : World) (r : Readings) (title content : jsstring) :
  isCreatingNew (app w) = true →
  trim title ≠ [] ∨ trim content ≠ [] →
  let new := {| note_id := generateId r; note_title := trim title;
                note_content := trim content;
                note_created := Date_toISOString r 0; note_updated := None |} in
  let w' := (dispatch w (EditorSave title content r)).1 in
  selectedNote (app w') = Some new
  ∧ filteredNotes toLowerCase (app w')
    = (if matchesSearch toLowerCase (search (app w)) new then [new] else [])
      ++ filteredNotes toLowerCase (app w).
Proof.
  intros Hmode Hfields new. unfold dispatch. simpl.
  unfold NoteEditor_handleSave. rewrite (both_blank_false _ _ Hfields).
  unfold handleSaveNote. rewrite Hmode. simpl. split.
  - unfold selectedNote. simpl. by rewrite bool_decide_eq_true_2.
  - unfold filteredNotes. simpl. apply filter_notes_cons.
Qed.

Lemma emptyListMessage_None (s : AppState) :
  emptyListMessage toLowerCase s = None ↔
  ∃ n, n ∈ notes s ∧ matchesSearch toLowerCase (search s) n = true.
Proof.
  unfold emptyListMessage.
  destruct (filteredNotes toLowerCase s) as [|n l] eqn:E; simpl.
  - split; [done|]. intros (n & Hn & Hmatch). exfalso.
    assert (H : n ∈ filteredNotes toLowerCase s).
    { unfold filteredNotes, filter_notes. by apply list_elem_of_filter. }
    rewrite E in H. by apply elem_of_nil in H.
  - split; [|done]. intros _. exists n.
    assert (H : n ∈ filteredNotes toLowerCase s) by (rewrite E; by left).
    unfold filteredNotes, filter_notes in H.
    by apply list_elem_of_filter in H as [? ?].
Qed.

(** X10: the placeholder of the list is absent exactly when some note
    matches the search; it reads "No notes yet" exactly when the
    collection is empty; and with an empty search box the "No notes found"
    text never shows. *)
Theorem empty_list_message (s : AppState) :
  toLowerCase [] = [] →
  (emptyListMessage toLowerCase s = None ↔
   ∃ n, n ∈ notes s ∧ matchesSearch toLowerCase (search s) n = true)
  ∧ (emptyListMessage toLowerCase s = Some noNotesYet ↔ notes s = [])
  ∧ (search s = [] → emptyListMessage toLowerCase s ≠ Some noNotesFound).
Proof.
  intros Hnil. split; [apply emptyListMessage_None|]. split.
  - unfold emptyListMessage, filteredNotes, filter_notes.
    destruct (notes s) as [|n ns] eqn:E; [done|].
    split; [|done]. destruct (length (filter _ _) =? 0)%nat; [|done].
    simpl. intros H. exfalso. revert H. by vm_compute.
  - intros Hsearch Hmsg.
    destruct (notes s) as [|n ns] eqn:E.
    + unfold emptyListMessage in Hmsg. rewrite E in Hmsg.
      destruct (length _ =? 0)%nat; [|done]. simpl in Hmsg.
      revert Hmsg. by vm_compute.
    + assert (H : emptyListMessage toLowerCase s = None); [|by rewrite H in Hmsg].
      apply emptyListMessage_None. exists n. split; [rewrite E; by left|].
      unfold matchesSearch. rewrite Hsearch, Hnil. apply includes_nil.
Qed.

End VisibleList.

Lemma created_note_and_search_witness :
  let w := {| app := {| notes := [groceries]; search := js "milk";
                        selectedNoteId := None; isCreatingNew := true |};
              localStorage := ∅ |} in
  let new := {| note_id := generateId sampleReadings; note_title := trim (js "Call Sam ");
                note_content := trim [];
                note_created := Date_toISOString sampleReadings 0;
                note_updated := None |} in
  let w' := (dispatch w (EditorSave (js "Call Sam ") [] sampleReadings)).1 in
  selectedNote (app w') = Some new
  ∧ filteredNotes toLowerCase_ascii (app w')
    = (if matchesSearch toLowerCase_ascii (search (app w)) new then [new] else [])
      ++ filteredNotes toLowerCase_ascii (app w).
Proof.
  apply (created_note_and_search toLowerCase_ascii
           {| app := {| notes := [groceries]; search := js "milk";
                        selectedNoteId := None; isCreatingNew := true |};
              localStorage := ∅ |}).
  - reflexivity.
  - left. vm_compute. discriminate.
Defined.

Lemma empty_list_message_witness :
  let s := {| notes := [groceries]; search := js "zebra";
              selectedNoteId := None; isCreatingNew := false |} in
  (emptyListMessage toLowerCase_ascii s = None ↔
   ∃ n, n ∈ notes s ∧ matchesSearch toLowerCase_ascii (search s) n = true)
  ∧ (emptyListMessage toLowerCase_ascii s = Some noNotesYet ↔ notes s = [])
  ∧ (search s = [] → emptyListMessage toLowerCase_ascii s ≠ Some noNotesFound).
Proof.
  apply (empty_list_message toLowerCase_ascii). reflexivity.
Defined.

(** ** The shape of a generated id *)

(** X11: a generated id starts with the printed clock reading and has
    at most eight characters more; it is never the empty string, and never
    the string [new] under which the editor for a new note is keyed. *)
Theorem generateId_shape (r : Readings) :
  generateId r ≠ []
  ∧ generateId r ≠ js "new"
  ∧ Number_toString (Date_now r) `prefix_of` generateId r
  ∧ (length (generateId r) ≤ length (Number_toString (Date_now r)) + 8)%nat.
Proof.
  unfold generateId.
  destruct (Number_toString_head (Date_now r)) as (c & t & E & Hc).
  rewrite E. repeat split.
  - done.
  - intros [= -> _]. lia.
  - by eexists.
  - rewrite length_app. unfold substr. rewrite length_take. lia.
Qed.

(** ** The text of the snapshot *)

(** X12: two collections with the same serialisation are the same
    collection: the snapshot loses nothing. *)
Theorem stringify_notes_injective (ns1 ns2 : list Note) :
  stringify_notes ns1 = stringify_notes ns2 → ns1 = ns2.
Proof.
  intros H.
  assert (Hp : Some (notes_array ns1) = Some (notes_array ns2))
    by (by rewrite <- !parse_stringify_notes, H).
  apply (inj Some) in Hp.
  assert (Hn : Some ns1 = Some ns2)
    by (by rewrite <- (notes_of_json_array ns1), Hp, notes_of_json_array).
  by apply (inj Some).
Qed.

Lemma stringify_notes_injective_witness :
  (notes (app (dispatch {| app := {| notes := []; search := [];
                                    selectedNoteId := None; isCreatingNew := true |};
                           localStorage := ∅ |}
                        (EditorSave (js " Call Sam") [] sampleReadings)).1))
  = [ {| note_id := js "17170000001234fzyo82m"; note_title := js "Call Sam";
         note_content := []; note_created := js "2024-05-29T16:26:40.123Z";
         note_updated := None |} ].
Proof.
  apply stringify_notes_injective. vm_compute. reflexivity.
Defined.

Section SnapshotText.
Import JSON.

Lemma hexDigit_printable (n : N) : 0x20 ≤ hexDigit n.
Proof. unfold hexDigit. destruct (n <? 10); lia. Qed.

Lemma quoteCodePoint_printable (c : N) : Forall (λ u, 0x20 ≤ u) (quoteCodePoint c).
Proof.
  unfold quoteCodePoint.
  destruct (N.eqb_spec c 0x08); [repeat constructor; lia|].
  destruct (N.eqb_spec c 0x09); [repeat constructor; lia|].
  destruct (N.eqb_spec c 0x0A); [repeat constructor; lia|].
  destruct (N.eqb_spec c 0x0C); [repeat constructor; lia|].
  destruct (N.eqb_spec c 0x0D); [repeat constructor; lia|].
  destruct (N.eqb_spec c 0x22); [repeat constructor; lia|].
  destruct (N.eqb_spec c 0x5C); [repeat constructor; lia|].
  destruct ((c <? 0x20) || isLeadingSurrogate c || isTrailingSurrogate c) eqn:E.
  - unfold UnicodeEscape. repeat constructor; try lia; apply hexDigit_printable.
  - apply orb_false_iff in E as [E _]. apply orb_false_iff in E as [E%N.ltb_ge _].
    by repeat constructor.
Qed.

Lemma quoteUnits_printable (s : jsstring) : Forall (λ u, 0x20 ≤ u) (quoteUnits s).
Proof.
  assert (Hn : (length s < S (length s))%nat) by lia.
  revert Hn. generalize (S (length s)) as n. intros n. revert s.
  induction n as [|n IH]; intros s Hn; [lia|].
  destruct s as [|c [|d s]].
  - constructor.
  - apply quoteCodePoint_printable.
  - rewrite JSONRoundTrip.quoteUnits_cons2.
    destruct (isLeadingSurrogate c && isTrailingSurrogate d) eqn:E.
    + apply andb_true_iff in E as [Hc Hd].
      destruct (JSONRoundTrip.surrogate_plain c) as (_ & _ & ?); [by left|].
      destruct (JSONRoundTrip.surrogate_plain d) as (_ & _ & ?); [by right|].
      repeat (constructor; [done|]). apply IH. simpl in *. lia.
    + apply Forall_app. split; [apply quoteCodePoint_printable|].
      apply IH. simpl in *. lia.
Qed.

Lemma QuoteJSONString_printable (s : jsstring) :
  Forall (λ u, 0x20 ≤ u) (QuoteJSONString s).
Proof.
  unfold QuoteJSONString. constructor; [lia|].
  apply Forall_app. split; [apply quoteUnits_printable|]. by repeat constructor.
Qed.

Lemma join_printable (parts : list jsstring) :
  Forall (Forall (λ u, 0x20 ≤ u)) parts →
  Forall (λ u, 0x20 ≤ u) (join [0x2C] parts).
Proof.
  induction 1 as [|p [|q parts] Hp Hparts IH]; [constructor|done|].
  change (join [0x2C] (p :: q :: parts)) with (p ++ [0x2C] ++ join [0x2C] (q :: parts)).
  apply Forall_app. split; [done|]. apply Forall_app. split; [|done].
  by repeat constructor.
Qed.

Lemma stringify_note_printable (n : Note) :
  Forall (λ u, 0x20 ≤ u) (stringify_note n).
Proof.
  unfold stringify_note, SerializeJSONObject.
  apply Forall_app. split; [by repeat constructor|].
  apply Forall_app. split; [|by repeat constructor].
  apply join_printable. rewrite <- list_fmap_compose.
  apply Forall_fmap, Forall_forall. intros [k v] _.
  unfold compose, member_line, member_text. cbn [fst snd].
  apply Forall_app. split; [apply QuoteJSONString_printable|].
  apply Forall_app. split; [by repeat constructor|apply QuoteJSONString_printable].
Qed.

(** X13: the text written to the storage holds no control character,
    whatever the notes contain: line breaks, tabs and the other code units
    below U+0020 are all written as escapes. *)
Theorem snapshot_has_no_control_characters (ns : list Note) :
  Forall (λ u, 0x20 ≤ u) (stringify_notes ns).
Proof.
  unfold stringify_notes, SerializeJSONArray.
  apply Forall_app. split; [by repeat constructor|].
  apply Forall_app. split; [|by repeat constructor].
  apply join_printable, Forall_fmap, Forall_forall. intros n _.
  apply stringify_note_printable.
Qed.

End SnapshotText.

(** ** List items *)

Lemma preview_text_bounds (content : jsstring) :
  let preview := take 48 content
                 ++ (if (48 <? length content)%nat then ellipsis else []) in
  (length preview ≤ 49)%nat
  ∧ take 48 preview = take 48 content
  ∧ ((length content ≤ 48)%nat → preview = content)
  ∧ ((48 < length content)%nat → length preview = 49%nat ∧ last preview = Some 0x2026).
Proof.
  intros preview. subst preview.
  destruct (Nat.ltb_spec 48 (length content)) as [Hlong|Hshort].
  - assert (Hlen : length (take 48 content ++ ellipsis) = 49%nat).
    { rewrite length_app, length_take. change (length ellipsis) with 1%nat. lia. }
    repeat split.
    + lia.
    + rewrite take_app_le by (rewrite length_take; lia).
      rewrite take_take. f_equal.
    + lia.
    + done.
    + apply last_snoc.
  - rewrite app_nil_r, !take_ge by lia.
    split; [lia|]. split; [done|]. split; [done|]. intros ?. lia.
Qed.

(** X14: the preview line of a list item is absent exactly for an empty
    content; it is never longer than 49 code units and agrees with the
    content on the first 48; it is the whole content when the content has
    at most 48, and otherwise has 49 and ends with the ellipsis. *)
Theorem contentPreview_bounds (note : Note) :
  (contentPreview note = None ↔ note_content note = [])
  ∧ ∀ preview, contentPreview note = Some preview →
      (length preview ≤ 49)%nat
      ∧ take 48 preview = take 48 (note_content note)
      ∧ ((length (note_content note) ≤ 48)%nat → preview = note_content note)
      ∧ ((48 < length (note_content note))%nat →
         length preview = 49%nat ∧ last preview = Some 0x2026).
Proof.
  unfold contentPreview. destruct (note_content note) as [|c content] eqn:E.
  - split; [done|]. intros preview [=].
  - split; [done|]. intros preview Hp. apply (inj Some) in Hp. subst preview.
    apply (preview_text_bounds (c :: content)).
Qed.

(** * The editor component *)

Lemma settle_nil (w : World) : settle w [] = (w, []).
Proof. unfold settle. simpl. by rewrite World_eta. Qed.

Lemma selectedNote_ext (s1 s2 : AppState) :
  notes s1 = notes s2 → selectedNoteId s1 = selectedNoteId s2 →
  selectedNote s1 = selectedNote s2.
Proof. unfold selectedNote. by intros -> ->. Qed.

Lemma selectedNote_id (s : AppState) (n : Note) :
  selectedNote s = Some n → selectedNoteId s = Some (note_id n) ∧ n ∈ notes s.
Proof.
  unfold selectedNote. intros H. apply find_some in H as [Hin Hb].
  apply bool_decide_eq_true in Hb. split; [done|]. by apply list_elem_of_In.
Qed.

Lemma selectedNote_unselected (s : AppState) :
  selectedNoteId s = None → selectedNote s = None.
Proof. intros H. apply selectedNote_None. intros i. by rewrite H. Qed.

Lemma generateId_not_new (r : Readings) : generateId r ≠ js "new".
Proof.
  unfold generateId.
  destruct (Number_toString_head (Date_now r)) as (c & t & E & Hc).
  rewrite E. intros [= -> _]. lia.
Qed.

Lemma reconcile_is_Some (s : AppState) (prev : option EditorState) :
  editorRendered s = true → is_Some (reconcile s prev).
Proof.
  intros Hr. unfold reconcile. rewrite Hr.
  destruct prev as [ed|]; [destruct (decide _)|]; by eexists.
Qed.

(** Typing changes nothing but the form. *)
Lemma interact_typing (p : Page) (i : Input) :
  (∃ v, i = TypeTitle v ∨ i = TypeContent v) →
  interact p i
  = ({| world := world p;
        editor := reconcile (app (world p)) (type_into (editor p) i) |}, []).
Proof.
  intros [v [-> | ->]]; unfold interact; cbn [input_calls]; by rewrite settle_nil.
Qed.

Lemma interact_cancel (p : Page) :
  is_Some (editor p) →
  interact p ClickCancel
  = ({| world := {| app := {| notes := notes (app (world p));
                              search := search (app (world p));
                              selectedNoteId := None; isCreatingNew := false |};
                    localStorage := localStorage (world p) |};
        editor := None |}, handleCancelEdit).
Proof.
  intros [ed Hed]. unfold interact. cbn [input_calls]. rewrite Hed.
  unfold settle. simpl. unfold reconcile.
  set (s1 := {| notes := _; search := _; selectedNoteId := None;
                isCreatingNew := false |}).
  assert (Hs1 : editorRendered s1 = false).
  { unfold editorRendered. by rewrite (selectedNote_unselected s1). }
  by rewrite Hs1.
Qed.

Lemma interact_select (p : Page) (noteId : jsstring) :
  interact p (ClickNote noteId)
  = (let s' := {| notes := notes (app (world p)); search := search (app (world p));
                  selectedNoteId := Some noteId; isCreatingNew := false |} in
     {| world := {| app := s'; localStorage := localStorage (world p) |};
        editor := reconcile s' (editor p) |}, handleSelectNote noteId).
Proof. reflexivity. Qed.

(** X16: what is typed in the form stays in the form: after typing a
    title and a content, cancelling, and selecting the same note again,
    the collection and the storage are as before and the form shows the
    stored title and content. *)
Theorem cancel_discards_staged_edits (p : Page) (n : Note)
    (typedTitle typedContent : jsstring) :
  isCreatingNew (app (world p)) = false →
  selectedNote (app (world p)) = Some n →
  let p' := interacts p [TypeTitle typedTitle; TypeContent typedContent;
                         ClickCancel; ClickNote (note_id n)] in
  notes (app (world p')) = notes (app (world p))
  ∧ localStorage (world p') = localStorage (world p)
  ∧ editor p' = Some {| editor_key := note_id n;
                        staged_title := note_title n;
                        staged_content := note_content n |}.
Proof.
  intros Hmode Hn.
  assert (Hr : editorRendered (app (world p)) = true).
  { unfold editorRendered. by rewrite Hn. }
  unfold interacts. cbn [foldl].
  rewrite (interact_typing p) by (eexists; by left). cbn [fst].
  rewrite (interact_typing _ (TypeContent _)) by (eexists; by right). cbn [fst world].
  rewrite interact_cancel by (cbn [editor]; by apply reconcile_is_Some).
  cbn [fst]. rewrite interact_select. cbn [fst world app editor notes search localStorage].
  repeat split.
  set (s2 := {| notes := _; search := _; selectedNoteId := Some (note_id n);
                isCreatingNew := false |}).
  assert (Hs2 : selectedNote s2 = Some n).
  { rewrite <- Hn. apply selectedNote_ext; [done|].
    by destruct (selectedNote_id _ _ Hn) as [-> _]. }
  unfold reconcile, editorRendered, NoteEditor_key, NoteEditor_seed.
  by rewrite Hs2.
Qed.

Lemma cancel_discards_staged_edits_witness :
  let p := openPage {| app := {| notes := [callSam; groceries]; search := [];
                                 selectedNoteId := Some (js "a1");
                                 isCreatingNew := false |};
                       localStorage := ∅ |} in
  let p' := interacts p [TypeTitle (js "Shopping"); TypeContent (js "nothing");
                         ClickCancel; ClickNote (note_id groceries)] in
  notes (app (world p')) = notes (app (world p))
  ∧ localStorage (world p') = localStorage (world p)
  ∧ editor p' = Some {| editor_key := note_id groceries;
                        staged_title := note_title groceries;
                        staged_content := note_content groceries |}.
Proof.
  apply (cancel_discards_staged_edits
           (openPage {| app := {| notes := [callSam; groceries]; search := [];
                                  selectedNoteId := Some (js "a1");
                                  isCreatingNew := false |};
                        localStorage := ∅ |})); reflexivity.
Defined.

Lemma interact_submit (p : Page) (ed : EditorState) (r : Readings) :
  editor p = Some ed →
  interact p (Submit r)
  = (let result := settle (world p)
                     (NoteEditor_handleSave (app (world p)) r
                        (staged_title ed) (staged_content ed)) in
     ({| world := result.1; editor := reconcile (app result.1) (Some ed) |},
      result.2)).
Proof.
  intros Hed. unfold interact. cbn [input_calls type_into]. rewrite Hed.
  by destruct (settle _ _).
Qed.

Lemma selectedNote_head (s : AppState) (n : Note) (ns : list Note) :
  notes s = n :: ns → selectedNoteId s = Some (note_id n) → selectedNote s = Some n.
Proof.
  unfold selectedNote. intros -> ->. simpl. by rewrite bool_decide_eq_true_2.
Qed.

(** X17: after a save in create mode goes through, the form is mounted
    anew under the id of the created note, and shows the title and the
    content as they were stored, trimmed. *)
Theorem create_remounts_editor (p : Page) (ed : EditorState) (r : Readings) :
  editor p = Some ed →
  editor_key ed = js "new" →
  isCreatingNew (app (world p)) = true →
  trim (staged_title ed) ≠ [] ∨ trim (staged_content ed) ≠ [] →
  let p' := (interact p (Submit r)).1 in
  editor p' = Some {| editor_key := generateId r;
                      staged_title := trim (staged_title ed);
                      staged_content := trim (staged_content ed) |}
  ∧ selectedNoteId (app (world p')) = Some (generateId r)
  ∧ isCreatingNew (app (world p')) = false.
Proof.
  intros Hed Hkey Hmode Hfields. rewrite (interact_submit _ _ _ Hed).
  unfold NoteEditor_handleSave. rewrite (both_blank_false _ _ Hfields).
  unfold handleSaveNote. rewrite Hmode. unfold settle. simpl.
  repeat split.
  set (new := {| note_id := generateId r; note_title := _; note_content := _;
                 note_created := _; note_updated := None |}).
  set (s' := {| notes := new :: _; search := _; selectedNoteId := _;
                isCreatingNew := false |}).
  assert (Hs' : selectedNote s' = Some new) by by eapply selectedNote_head.
  unfold reconcile, editorRendered, NoteEditor_key, NoteEditor_seed.
  rewrite Hs'. simpl.
  rewrite decide_False; [done|]. rewrite Hkey. intros H.
  by apply (generateId_not_new r).
Qed.

Lemma create_remounts_editor_witness :
  let ed := {| editor_key := js "new"; staged_title := js " Call Sam ";
               staged_content := [] |} in
  let p := {| world := {| app := {| notes := [groceries]; search := [];
                                    selectedNoteId := None; isCreatingNew := true |};
                          localStorage := ∅ |};
              editor := Some ed |} in
  let p' := (interact p (Submit sampleReadings)).1 in
  editor p' = Some {| editor_key := generateId sampleReadings;
                      staged_title := trim (staged_title ed);
                      staged_content := trim (staged_content ed) |}
  ∧ selectedNoteId (app (world p')) = Some (generateId sampleReadings)
  ∧ isCreatingNew (app (world p')) = false.
Proof.
  apply (create_remounts_editor
           {| world := {| app := {| notes := [groceries]; search := [];
                                    selectedNoteId := None; isCreatingNew := true |};
                          localStorage := ∅ |};
              editor := Some {| editor_key := js "new"; staged_title := js " Call Sam ";
                                staged_content := [] |} |}).
  - reflexivity.
  - reflexivity.
  - reflexivity.
  - left. vm_compute. discriminate.
Defined.

(** The note found after an update is the note found before, edited. *)
Lemma find_imap_edit (ns : list Note) (sel : option jsstring) (edited : Edited)
    (stamp : nat → jsstring) (n : Note) :
  List.find (λ note, bool_decide (Some (note_id note) = sel)) ns = Some n →
  ∃ i, List.find (λ note, bool_decide (Some (note_id note) = sel))
         (imap (λ i n, if decide (Some (note_id n) = sel)
                       then withEdit n edited (stamp i) else n) ns)
       = Some (withEdit n edited (stamp i)).
Proof.
  revert stamp. induction ns as [|m ns IH]; intros stamp; [done|].
  simpl. destruct (decide (Some (note_id m) = sel)) as [E|E].
  - rewrite (bool_decide_eq_true_2 _ E). intros [= ->]. exists 0%nat.
    simpl. by rewrite (bool_decide_eq_true_2 _ E).
  - rewrite (bool_decide_eq_false_2 _ E). intros H.
    destruct (IH (stamp ∘ S) H) as [i Hi]. exists (S i). exact Hi.
Qed.

(** X18: after a save on an existing note goes through, the form is not
    mounted anew: it keeps what was typed, untrimmed, while the note in
    the collection holds the trimmed title and content. *)
Theorem update_keeps_editor (p : Page) (ed : EditorState) (n : Note) (r : Readings) :
  editor p = Some ed →
  isCreatingNew (app (world p)) = false →
  selectedNote (app (world p)) = Some n →
  editor_key ed = note_id n →
  trim (staged_title ed) ≠ [] ∨ trim (staged_content ed) ≠ [] →
  let p' := (interact p (Submit r)).1 in
  editor p' = Some ed
  ∧ ∃ n', selectedNote (app (world p')) = Some n'
          ∧ note_id n' = note_id n
          ∧ note_title n' = trim (staged_title ed)
          ∧ note_content n' = trim (staged_content ed).
Proof.
  intros Hed Hmode Hn Hkey Hfields. rewrite (interact_submit _ _ _ Hed).
  unfold NoteEditor_handleSave. rewrite (both_blank_false _ _ Hfields).
  unfold handleSaveNote. rewrite Hmode, Hn. unfold settle. simpl.
  set (edited := {| edited_title := _; edited_content := _ |}).
  destruct (find_imap_edit (notes (app (world p))) (selectedNoteId (app (world p)))
              edited (Date_toISOString r) n Hn) as [i Hi].
  split.
  - unfold reconcile, editorRendered, NoteEditor_key, NoteEditor_seed, selectedNote.
    simpl. rewrite Hi, Hmode. simpl. by rewrite decide_True.
  - eexists. split; [unfold selectedNote; simpl; exact Hi|]. done.
Qed.

Lemma update_keeps_editor_witness :
  let ed := {| editor_key := js "a1"; staged_title := js "Groceries ";
               staged_content := js " milk, eggs, bread" |} in
  let p := {| world := {| app := {| notes := [callSam; groceries]; search := [];
                                    selectedNoteId := Some (js "a1");
                                    isCreatingNew := false |};
                          localStorage := ∅ |};
              editor := Some ed |} in
  let p' := (interact p (Submit laterReadings)).1 in
  editor p' = Some ed
  ∧ ∃ n', selectedNote (app (world p')) = Some n'
          ∧ note_id n' = note_id groceries
          ∧ note_title n' = trim (staged_title ed)
          ∧ note_content n' = trim (staged_content ed).
Proof.
  apply (update_keeps_editor
           {| world := {| app := {| notes := [callSam; groceries]; search := [];
                                    selectedNoteId := Some (js "a1");
                                    isCreatingNew := false |};
                          localStorage := ∅ |};
              editor := Some {| editor_key := js "a1"; staged_title := js "Groceries ";
                                staged_content := js " milk, eggs, bread" |} |}).
  - reflexivity.
  - reflexivity.
  - reflexivity.
  - reflexivity.
  - left. vm_compute. discriminate.
Defined.

(** X19: when no new-note form is open, the Add button opens an empty
    one, and submitting it as it is only alerts: the page stays as it
    is. *)
Theorem add_then_submit_is_rejected (p : Page) (r : Readings) :
  (∀ ed, editor p = Some ed → editor_key ed ≠ js "new") →
  let p1 := (interact p ClickAdd).1 in
  editor p1 = Some {| editor_key := js "new"; staged_title := [];
                      staged_content := [] |}
  ∧ interact p1 (Submit r) = (p1, [Alert cannotSaveEmpty]).
Proof.
  intros Hkey.
  assert (H1 : interact p ClickAdd
    = ({| world := {| app := {| notes := notes (app (world p));
                                search := search (app (world p));
                                selectedNoteId := None; isCreatingNew := true |};
                      localStorage := localStorage (world p) |};
          editor := Some {| editor_key := js "new"; staged_title := [];
                            staged_content := [] |} |}, handleCreateNoteClick)).
  { unfold interact. cbn [input_calls type_into]. unfold settle. simpl.
    unfold reconcile, editorRendered, NoteEditor_key, NoteEditor_seed. simpl.
    rewrite orb_true_r.
    rewrite (selectedNote_unselected
               {| notes := _; search := _; selectedNoteId := None;
                  isCreatingNew := true |}) by done.
    destruct (editor p) as [ed|] eqn:Hed; [|done].
    rewrite decide_False; [done|]. by apply Hkey. }
  rewrite H1. cbn [fst]. split; [done|].
  erewrite interact_submit by reflexivity. cbn [world editor app staged_title staged_content].
  unfold NoteEditor_handleSave. simpl. unfold settle. simpl.
  unfold reconcile, editorRendered, NoteEditor_key, NoteEditor_seed. simpl.
  rewrite orb_true_r.
  rewrite (selectedNote_unselected
             {| notes := _; search := _; selectedNoteId := None;
                isCreatingNew := true |}) by done.
  by rewrite decide_True.
Qed.

Lemma add_then_submit_is_rejected_witness :
  let p := openPage {| app := {| notes := [callSam; groceries]; search := [];
                                 selectedNoteId := Some (js "a1");
                                 isCreatingNew := false |};
                       localStorage := ∅ |} in
  let p1 := (interact p ClickAdd).1 in
  editor p1 = Some {| editor_key := js "new"; staged_title := [];
                      staged_content := [] |}
  ∧ interact p1 (Submit sampleReadings) = (p1, [Alert cannotSaveEmpty]).
Proof.
  apply (add_then_submit_is_rejected
           (openPage {| app := {| notes := [callSam; groceries]; search := [];
                                  selectedNoteId := Some (js "a1");
                                  isCreatingNew := false |};
                        localStorage := ∅ |})).
  intros ed. vm_compute. intros [= <-]. discriminate.
Defined.

(** X20: with the new-note form open, the Add button keeps the form and
    what was typed in it, and selecting a note replaces the form by one
    showing that note: what was typed for the new note is gone. *)
Theorem open_form_and_navigation (p : Page) (ed : EditorState) (n : Note) :
  editor p = Some ed →
  editor_key ed = js "new" →
  n ∈ notes (app (world p)) →
  note_id n ≠ js "new" →
  editor (interact p ClickAdd).1 = Some ed
  ∧ ∃ m, selectedNote (app (world (interact p (ClickNote (note_id n))).1)) = Some m
         ∧ note_id m = note_id n
         ∧ editor (interact p (ClickNote (note_id n))).1
           = Some {| editor_key := note_id n; staged_title := note_title m;
                     staged_content := note_content m |}.
Proof.
  intros Hed Hkey Hin Hnew. split.
  - unfold interact. cbn [input_calls type_into]. unfold settle. simpl.
    unfold reconcile, editorRendered, NoteEditor_key. simpl. rewrite orb_true_r.
    rewrite (selectedNote_unselected
               {| notes := _; search := _; selectedNoteId := None;
                  isCreatingNew := true |}) by done.
    rewrite Hed. by rewrite decide_True.
  - rewrite interact_select. cbn [fst world app editor].
    set (s' := {| notes := _; search := _; selectedNoteId := Some (note_id n);
                  isCreatingNew := false |}).
    destruct (selectedNote_Some s' (note_id n)) as [m Hm]; [done| |].
    { by apply list_elem_of_fmap_2. }
    destruct (selectedNote_id _ _ Hm) as [[= Hid] _].
    exists m. split; [done|]. split; [done|].
    unfold reconcile, editorRendered, NoteEditor_key, NoteEditor_seed.
    rewrite Hm, Hed. simpl. rewrite decide_False; [by rewrite Hid|].
    rewrite Hkey, <- Hid. done.
Qed.

Lemma open_form_and_navigation_witness :
  let ed := {| editor_key := js "new"; staged_title := js "half a thought";
               staged_content := [] |} in
  let p := {| world := {| app := {| notes := [callSam; groceries]; search := [];
                                    selectedNoteId := None; isCreatingNew := true |};
                          localStorage := ∅ |};
              editor := Some ed |} in
  editor (interact p ClickAdd).1 = Some ed
  ∧ ∃ m, selectedNote (app (world (interact p (ClickNote (note_id groceries))).1)) = Some m
         ∧ note_id m = note_id groceries
         ∧ editor (interact p (ClickNote (note_id groceries))).1
           = Some {| editor_key := note_id groceries; staged_title := note_title m;
                     staged_content := note_content m |}.
Proof.
  apply (open_form_and_navigation
           {| world := {| app := {| notes := [callSam; groceries]; search := [];
                                    selectedNoteId := None; isCreatingNew := true |};
                          localStorage := ∅ |};
              editor := Some {| editor_key := js "new";
                                staged_title := js "half a thought";
                                staged_content := [] |} |}).
  - reflexivity.
  - reflexivity.
  - apply list_elem_of_further, list_elem_of_here.
  - vm_compute. discriminate.
Defined.

Lemma find_filter_keeps {A : Type} (f : A → bool) (Q : A → Prop)
    `{!∀ x, Decision (Q x)} (l : list A) :
  (∀ x, f x = true → Q x) → List.find f (filter Q l) = List.find f l.
Proof.
  intros Hf. induction l as [|x l IH]; [done|].
  destruct (decide (Q x)) as [Hx|Hx].
  - rewrite filter_cons_True by done. simpl. by rewrite IH.
  - rewrite filter_cons_False by done. simpl.
    destruct (f x) eqn:E; [|done]. by apply Hf in E.
Qed.

(** X21: a confirmed delete closes the form when the new-note form is
    open or when the deleted id is the selected one, and what was typed is
    gone; when another note is being edited, the form and what was typed
    in it stay. *)
Theorem delete_and_the_open_form (p : Page) (ed : EditorState) (noteId : jsstring) :
  editor p = Some ed →
  let p' := (interact p (ClickDelete noteId true)).1 in
  (selectedNoteId (app (world p)) = None → editor p' = None)
  ∧ (selectedNoteId (app (world p)) = Some noteId → editor p' = None)
  ∧ (∀ n, selectedNote (app (world p)) = Some n →
          isCreatingNew (app (world p)) = false →
          editor_key ed = note_id n → note_id n ≠ noteId →
          editor p' = Some ed ∧ selectedNote (app (world p')) = Some n).
Proof.
  intros Hed. unfold interact. cbn [input_calls type_into]. unfold settle. simpl.
  repeat split.
  - intros Hsel. rewrite Hsel. rewrite decide_False by done. simpl.
    unfold reconcile, editorRendered.
    by rewrite (selectedNote_unselected
                  {| notes := _; search := _; selectedNoteId := None;
                     isCreatingNew := false |}).
  - intros Hsel. rewrite decide_True by done. simpl.
    unfold reconcile, editorRendered.
    by rewrite (selectedNote_unselected
                  {| notes := _; search := _; selectedNoteId := None;
                     isCreatingNew := false |}).
  - destruct (selectedNote_id _ _ H) as [Hsel _].
    rewrite decide_False by (rewrite Hsel; congruence). simpl.
    set (s' := {| notes := filter _ _; search := _; selectedNoteId := _;
                  isCreatingNew := false |}).
    assert (Hs' : selectedNote s' = Some n).
    { rewrite <- H. unfold selectedNote, s'. simpl. apply find_filter_keeps.
      intros x Hx%bool_decide_eq_true. rewrite Hsel in Hx. congruence. }
    unfold reconcile, editorRendered, NoteEditor_key. rewrite Hs', Hed. simpl.
    by rewrite decide_True.
  - destruct (selectedNote_id _ _ H) as [Hsel _].
    rewrite decide_False by (rewrite Hsel; congruence). simpl.
    rewrite <- H. unfold selectedNote. simpl. apply find_filter_keeps.
    intros x Hx%bool_decide_eq_true. rewrite Hsel in Hx. congruence.
Qed.

Lemma delete_and_the_open_form_witness :
  let ed := {| editor_key := js "a1"; staged_title := js "Groceries!";
               staged_content := js "milk" |} in
  let p := {| world := {| app := {| notes := [callSam; groceries]; search := [];
                                    selectedNoteId := Some (js "a1");
                                    isCreatingNew := false |};
                          localStorage := ∅ |};
              editor := Some ed |} in
  let p' := (interact p (ClickDelete (js "b2") true)).1 in
  (selectedNoteId (app (world p)) = None → editor p' = None)
  ∧ (selectedNoteId (app (world p)) = Some (js "b2") → editor p' = None)
  ∧ (∀ n, selectedNote (app (world p)) = Some n →
          isCreatingNew (app (world p)) = false →
          editor_key ed = note_id n → note_id n ≠ js "b2" →
          editor p' = Some ed ∧ selectedNote (app (world p')) = Some n).
Proof.
  apply (delete_and_the_open_form
           {| world := {| app := {| notes := [callSam; groceries]; search := [];
                                    selectedNoteId := Some (js "a1");
                                    isCreatingNew := false |};
                          localStorage := ∅ |};
              editor := Some {| editor_key := js "a1"; staged_title := js "Groceries!";
                                staged_content := js "milk" |} |}).
  reflexivity.
Defined.
